(** * Graph Notes (static/js/app.js): a shallow embedding and its properties

    The application keeps one mutable [state] object (nodes, links, the id
    counter, the selection, the zoom transform, the force simulation) and
    reacts to pointer, keyboard, timer and network events.  The embedding
    below follows app.js function by function:

    - JavaScript numbers that are ids hold integers and are [Z], with the
      rounding of double arithmetic written out where the code adds to one;
      coordinates, scales and force strengths are exact rationals [Q];
    - strings are lists of UTF-16 code units;
    - node objects live in a heap and are handled through references, since
      [state.nodes], the links' endpoints and [state.selectedNode] alias the
      same objects;
    - handlers are computations in a state-and-exception monad: a handler
      either completes normally or throws, and in both cases leaves a state
      behind;
    - what a handler reads from outside ([Math.random()], [new Date()], the
      event, the svg's bounding rectangle) is an argument of the handler;
    - timers are a queue of pending ids, and the expiry of a timer is an
      event like the others, so time is the order of events.

    Drawing is left out: the d3 selections, transitions, tooltips and
    notifications change nothing the handlers read later.  Of the force
    simulation only the charge strength and alpha are kept; the positions it
    computes are whatever the heap holds when a handler runs. *)

From Stdlib Require Import ZArith QArith Qminmax Qabs List Bool Lia Lqa.
Import ListNotations.

Set Implicit Arguments.

(** ** Strings *)

(** A JavaScript string is a sequence of UTF-16 code units; [length],
    [substring] and [trim] all count code units. *)
Definition jsstring := list N.

(** [s.substring(start)]: the code units from index [start] to the end. *)
Definition substring_from (start : nat) (s : jsstring) : jsstring := skipn start s.

(** WhiteSpace and LineTerminator code points of ECMAScript, the ones
    [String.prototype.trim] strips. *)
Definition is_js_space (c : N) : bool :=
  ((9 <=? c) && (c <=? 13) || (c =? 32) || (c =? 160) || (c =? 5760)
   || (8192 <=? c) && (c <=? 8202) || (c =? 8232) || (c =? 8233)
   || (c =? 8239) || (c =? 8287) || (c =? 12288) || (c =? 65279))%N.

Fixpoint trim_start (s : jsstring) : jsstring :=
  match s with
  | c :: s' => if is_js_space c then trim_start s' else s
  | [] => []
  end.

Definition trim_end (s : jsstring) : jsstring := rev (trim_start (rev s)).

Definition trim (s : jsstring) : jsstring := trim_end (trim_start s).

(** Truthiness of a string: the empty string is falsy. *)
Definition str_truthy (s : jsstring) : bool :=
  match s with [] => false | _ :: _ => true end.

(** ['...'] *)
Definition dots : jsstring := [46; 46; 46]%N.

(** ['# Новая заметка\n\nНачните писать...'], the note of a fresh root node. *)
Definition rootNoteTemplate : jsstring :=
  [35; 32; 1053; 1086; 1074; 1072; 1103; 32; 1079; 1072; 1084; 1077; 1090;
   1082; 1072; 10; 10; 1053; 1072; 1095; 1085; 1080; 1090; 1077; 32; 1087;
   1080; 1089; 1072; 1090; 1100; 46; 46; 46]%N.

(** ['# Разрывающая связь\n\nСвязь была прервана в этой точке.'] *)
Definition breakerNoteText : jsstring :=
  [35; 32; 1056; 1072; 1079; 1088; 1099; 1074; 1072; 1102; 1097; 1072; 1103;
   32; 1089; 1074; 1103; 1079; 1100; 10; 10; 1057; 1074; 1103; 1079; 1100;
   32; 1073; 1099; 1083; 1072; 32; 1087; 1088; 1077; 1088; 1074; 1072; 1085;
   1072; 32; 1074; 32; 1101; 1090; 1086; 1081; 32; 1090; 1086; 1095; 1082;
   1077; 46]%N.

(** ** Configuration *)

Module CONFIG.

Definition chargeStrength : Q := -500.
Definition linkDistance : Q := 150.
Definition zoomMin : Q := 1 # 10.
Definition zoomMax : Q := 5.

End CONFIG.

(** ** Numbers that are ids

    The ids and the id counter are JavaScript numbers, that is IEEE 754
    doubles, holding integers.  Every integer of magnitude up to 2^53 is a
    double; beyond, the doubles are the multiples of a power of two with a
    53-bit significand.  A sum is the double nearest to the exact sum, and of
    two doubles equally near the one with the even significand. *)

(** 2^53: the integers of smaller magnitude are the safe integers. *)
Definition two53 : Z := 9007199254740992.

(** The double nearest to the integer [z].  (An integer of magnitude 2^1024
    or more would give [Infinity]; the sum of a double and 1 never does.) *)
Definition double_of_Z (z : Z) : Z :=
  let a := Z.abs z in
  if (a <? two53)%Z then z
  else
    let ulp := (2 ^ (Z.log2 a - 52))%Z in
    let q := (a / ulp)%Z in
    let r := (a mod ulp)%Z in
    let q' := if (2 * r <? ulp)%Z then q
              else if (ulp <? 2 * r)%Z then (q + 1)%Z
              else if Z.even q then q else (q + 1)%Z in
    (Z.sgn z * (q' * ulp))%Z.

(** [a + b] on numbers that hold integers. *)
Definition number_add (a b : Z) : Z := double_of_Z (a + b).

(** [Number.isSafeInteger(z)] *)
Definition safe_integer (z : Z) : Prop := (- two53 < z < two53)%Z.

(** ** Data model *)

Inductive NodeType := root | child | breaker.

Definition NodeType_eqb (a b : NodeType) : bool :=
  match a, b with
  | root, root | child, child | breaker, breaker => true
  | _, _ => false
  end.

(** A node object, with the fields [createNode] and [loadGraph] give it. *)
Record Node := mkNode {
  n_id : Z;
  n_x : Q;
  n_y : Q;
  n_fx : option Q;
  n_fy : option Q;
  n_type : NodeType;
  n_note : jsstring;
  n_createdAt : jsstring;
  n_parentId : option Z;
  n_children : list Z
}.

(** A reference to a node object. *)
Definition ref := nat.

(** An endpoint of a link is a node object or, before resolution, a bare id
    ([typeof link.source === 'object'] tells them apart). *)
Inductive Endpoint := EObj (r : ref) | EId (i : Z).

(** The link id is the template string [`${a}-${b}`]; the string and the pair
    of rendered values determine each other, so the pair stands for it.
    [None] is a value that renders as [undefined]. *)
Definition LinkId := (option Z * option Z)%type.

Definition optZ_eqb (a b : option Z) : bool :=
  match a, b with
  | Some u, Some v => (u =? v)%Z
  | None, None => true
  | _, _ => false
  end.

Definition LinkId_eqb (a b : LinkId) : bool :=
  optZ_eqb (fst a) (fst b) && optZ_eqb (snd a) (snd b).

Record Link := mkLink {
  l_source : Endpoint;
  l_target : Endpoint;
  l_id : LinkId;
  l_isBreakerLink : bool
}.

(** d3's zoom transform [{k, x, y}]. *)
Record Transform := mkTransform { t_k : Q; t_x : Q; t_y : Q }.

(** ** Persistence wire format *)

(** A node of the JSON body.  [x], [y], [parentId] and [children] may be
    missing or null, which [loadGraph] repairs with [||]. *)
Record WireNode := mkWireNode {
  w_id : Z;
  w_type : NodeType;
  w_note : jsstring;
  w_x : option Q;
  w_y : option Q;
  w_createdAt : jsstring;
  w_parentId : option Z;
  w_children : option (list Z)
}.

Record WireLink := mkWireLink {
  w_source : option Z;
  w_target : option Z;
  w_isBreakerLink : option bool
}.

(** The JSON body; either array may be absent. *)
Record Payload := mkPayload {
  p_nodes : option (list WireNode);
  p_links : option (list WireLink)
}.

(** ** Application state *)

(** The [state] object of app.js together with the parts of the browser the
    handlers read and write: the heap of node objects, the editor widget, the
    panel's [active] class, the timer queue and the requests sent. *)
Record State := mkState {
  heap : ref -> Node;                  (* node objects by reference *)
  nextRef : ref;                       (* next free reference *)
  nodes : list ref;                    (* state.nodes *)
  links : list Link;                   (* state.links *)
  nextId : Z;                          (* state.nextId *)
  selectedNode : option ref;           (* state.selectedNode *)
  connectionSourceNode : option ref;   (* state.connectionSourceNode *)
  isDragging : bool;
  isPanning : bool;
  width : Q;
  height : Q;
  currentZoom : Q;
  zoomTransform : option Transform;
  charge : Q;                          (* strength of the simulation's 'charge' force *)
  alpha : Q;                           (* the simulation's alpha *)
  editorActive : bool;                 (* elements.editorPanel has class 'active' *)
  editorValue : jsstring;              (* state.simplemde.value() *)
  timeout : option nat;                (* the variable [timeout] of the debounce closure *)
  timers : list nat;                   (* ids of the pending timers *)
  nextTimer : nat;                     (* id the next setTimeout returns *)
  posted : list Payload                (* bodies POSTed to /api/graph, oldest first *)
}.

Definition set_heap (v : ref -> Node) (s : State) : State :=
  mkState v (nextRef s) (nodes s) (links s) (nextId s) (selectedNode s)
    (connectionSourceNode s) (isDragging s) (isPanning s) (width s) (height s)
    (currentZoom s) (zoomTransform s) (charge s) (alpha s) (editorActive s)
    (editorValue s) (timeout s) (timers s) (nextTimer s) (posted s).

Definition set_nextRef (v : ref) (s : State) : State :=
  mkState (heap s) v (nodes s) (links s) (nextId s) (selectedNode s)
    (connectionSourceNode s) (isDragging s) (isPanning s) (width s) (height s)
    (currentZoom s) (zoomTransform s) (charge s) (alpha s) (editorActive s)
    (editorValue s) (timeout s) (timers s) (nextTimer s) (posted s).

Definition set_nodes (v : list ref) (s : State) : State :=
  mkState (heap s) (nextRef s) v (links s) (nextId s) (selectedNode s)
    (connectionSourceNode s) (isDragging s) (isPanning s) (width s) (height s)
    (currentZoom s) (zoomTransform s) (charge s) (alpha s) (editorActive s)
    (editorValue s) (timeout s) (timers s) (nextTimer s) (posted s).

Definition set_links (v : list Link) (s : State) : State :=
  mkState (heap s) (nextRef s) (nodes s) v (nextId s) (selectedNode s)
    (connectionSourceNode s) (isDragging s) (isPanning s) (width s) (height s)
    (currentZoom s) (zoomTransform s) (charge s) (alpha s) (editorActive s)
    (editorValue s) (timeout s) (timers s) (nextTimer s) (posted s).

Definition set_nextId (v : Z) (s : State) : State :=
  mkState (heap s) (nextRef s) (nodes s) (links s) v (selectedNode s)
    (connectionSourceNode s) (isDragging s) (isPanning s) (width s) (height s)
    (currentZoom s) (zoomTransform s) (charge s) (alpha s) (editorActive s)
    (editorValue s) (timeout s) (timers s) (nextTimer s) (posted s).

Definition set_selectedNode (v : option ref) (s : State) : State :=
  mkState (heap s) (nextRef s) (nodes s) (links s) (nextId s) v
    (connectionSourceNode s) (isDragging s) (isPanning s) (width s) (height s)
    (currentZoom s) (zoomTransform s) (charge s) (alpha s) (editorActive s)
    (editorValue s) (timeout s) (timers s) (nextTimer s) (posted s).

Definition set_connectionSourceNode (v : option ref) (s : State) : State :=
  mkState (heap s) (nextRef s) (nodes s) (links s) (nextId s) (selectedNode s)
    v (isDragging s) (isPanning s) (width s) (height s)
    (currentZoom s) (zoomTransform s) (charge s) (alpha s) (editorActive s)
    (editorValue s) (timeout s) (timers s) (nextTimer s) (posted s).

Definition set_zoom (t : Transform) (s : State) : State :=
  mkState (heap s) (nextRef s) (nodes s) (links s) (nextId s) (selectedNode s)
    (connectionSourceNode s) (isDragging s) (isPanning s) (width s) (height s)
    (t_k t) (Some t) (charge s) (alpha s) (editorActive s)
    (editorValue s) (timeout s) (timers s) (nextTimer s) (posted s).

Definition set_charge (v : Q) (s : State) : State :=
  mkState (heap s) (nextRef s) (nodes s) (links s) (nextId s) (selectedNode s)
    (connectionSourceNode s) (isDragging s) (isPanning s) (width s) (height s)
    (currentZoom s) (zoomTransform s) v (alpha s) (editorActive s)
    (editorValue s) (timeout s) (timers s) (nextTimer s) (posted s).

Definition set_alpha (v : Q) (s : State) : State :=
  mkState (heap s) (nextRef s) (nodes s) (links s) (nextId s) (selectedNode s)
    (connectionSourceNode s) (isDragging s) (isPanning s) (width s) (height s)
    (currentZoom s) (zoomTransform s) (charge s) v (editorActive s)
    (editorValue s) (timeout s) (timers s) (nextTimer s) (posted s).

Definition set_editorActive (v : bool) (s : State) : State :=
  mkState (heap s) (nextRef s) (nodes s) (links s) (nextId s) (selectedNode s)
    (connectionSourceNode s) (isDragging s) (isPanning s) (width s) (height s)
    (currentZoom s) (zoomTransform s) (charge s) (alpha s) v
    (editorValue s) (timeout s) (timers s) (nextTimer s) (posted s).

Definition set_editorValue (v : jsstring) (s : State) : State :=
  mkState (heap s) (nextRef s) (nodes s) (links s) (nextId s) (selectedNode s)
    (connectionSourceNode s) (isDragging s) (isPanning s) (width s) (height s)
    (currentZoom s) (zoomTransform s) (charge s) (alpha s) (editorActive s)
    v (timeout s) (timers s) (nextTimer s) (posted s).

Definition set_timeout (v : option nat) (s : State) : State :=
  mkState (heap s) (nextRef s) (nodes s) (links s) (nextId s) (selectedNode s)
    (connectionSourceNode s) (isDragging s) (isPanning s) (width s) (height s)
    (currentZoom s) (zoomTransform s) (charge s) (alpha s) (editorActive s)
    (editorValue s) v (timers s) (nextTimer s) (posted s).

Definition set_timers (v : list nat) (s : State) : State :=
  mkState (heap s) (nextRef s) (nodes s) (links s) (nextId s) (selectedNode s)
    (connectionSourceNode s) (isDragging s) (isPanning s) (width s) (height s)
    (currentZoom s) (zoomTransform s) (charge s) (alpha s) (editorActive s)
    (editorValue s) (timeout s) v (nextTimer s) (posted s).

Definition set_nextTimer (v : nat) (s : State) : State :=
  mkState (heap s) (nextRef s) (nodes s) (links s) (nextId s) (selectedNode s)
    (connectionSourceNode s) (isDragging s) (isPanning s) (width s) (height s)
    (currentZoom s) (zoomTransform s) (charge s) (alpha s) (editorActive s)
    (editorValue s) (timeout s) (timers s) v (posted s).

Definition set_posted (v : list Payload) (s : State) : State :=
  mkState (heap s) (nextRef s) (nodes s) (links s) (nextId s) (selectedNode s)
    (connectionSourceNode s) (isDragging s) (isPanning s) (width s) (height s)
    (currentZoom s) (zoomTransform s) (charge s) (alpha s) (editorActive s)
    (editorValue s) (timeout s) (timers s) (nextTimer s) v.

(** Writing one object of the heap: [heap[r] = n]. *)
Definition store (r : ref) (n : Node) (h : ref -> Node) : ref -> Node :=
  fun r' => if Nat.eqb r' r then n else h r'.

(** ** The monad of handlers *)

Inductive JsError := TypeError | ReferenceError.

(** How a piece of JavaScript ends: normally with a value, or by throwing. *)
Inductive Completion (A : Type) :=
| Normal (a : A)
| Throw (e : JsError).

Arguments Throw {A} e.

Definition M (A : Type) : Type := State -> Completion A * State.

Definition ret {A} (a : A) : M A := fun s => (Normal a, s).

Definition bind {A B} (c : M A) (f : A -> M B) : M B :=
  fun s =>
    match c s with
    | (Normal a, s') => f a s'
    | (Throw e, s') => (Throw e, s')
    end.

Definition throw {A} (e : JsError) : M A := fun s => (Throw e, s).

Definition get : M State := fun s => (Normal s, s).

Definition modify (f : State -> State) : M unit := fun s => (Normal tt, f s).

(** [.catch(err => console.error(...))]: the error is logged and dropped. *)
Definition catch_log (c : M unit) : M unit :=
  fun s =>
    match c s with
    | (Normal a, s') => (Normal a, s')
    | (Throw _, s') => (Normal tt, s')
    end.

Declare Scope js_scope.
Delimit Scope js_scope with js.
Notation "x <- c1 ;; c2" := (bind c1 (fun x => c2))
  (at level 61, c1 at next level, right associativity) : js_scope.
Notation "c1 ;; c2" := (bind c1 (fun _ => c2))
  (at level 61, right associativity) : js_scope.
Open Scope js_scope.

(** The state a computation leaves, and its completion. *)
Definition exec {A} (c : M A) (s : State) : State := snd (c s).
Definition result {A} (c : M A) (s : State) : Completion A := fst (c s).

(** Running computations one after the other, whatever their completions:
    the event loop dispatches the next event even if a handler threw. *)
Fixpoint run_events (evs : list (M unit)) (s : State) : State :=
  match evs with
  | [] => s
  | e :: evs' => run_events evs' (exec e s)
  end.

(** ** d3-zoom transforms *)

(** [d3.zoomIdentity] *)
Definition zoomIdentity : Transform := mkTransform 1 0 0.

(** [transform.translate(x, y)] of d3-zoom:
    [x === 0 & y === 0 ? this : new Transform(k, this.x + k * x, this.y + k * y)]. *)
Definition translate (t : Transform) (x y : Q) : Transform :=
  if Qeq_bool x 0 && Qeq_bool y 0 then t
  else mkTransform (t_k t) (t_x t + t_k t * x) (t_y t + t_k t * y).

(** [transform.scale(k)] of d3-zoom:
    [k === 1 ? this : new Transform(this.k * k, this.x, this.y)]. *)
Definition scale (t : Transform) (k : Q) : Transform :=
  if Qeq_bool k 1 then t else mkTransform (t_k t * k) (t_x t) (t_y t).

(** ** Events *)

(** What the handlers read from a mouse or wheel event, with the bounding
    rectangle of the svg element at that moment. *)
Record PointerEvent := mkPointerEvent {
  clientX : Q;
  clientY : Q;
  rect_left : Q;
  rect_top : Q;
  deltaY : Q;
  ctrlKey : bool;
  targetIsSvg : bool        (* event.target.tagName === 'svg' *)
}.

Inductive Key := KeyEscape | KeyS | KeyDelete | KeyOther.

(** The receiver of a call: [undefined] for a plain call in strict mode, the
    DOM element for a listener the browser invokes. *)
Inductive ThisArg := ThisUndefined | ThisElement.

(** ** Coordinates *)

Definition currentTransform (s : State) : Transform :=
  match zoomTransform s with Some t => t | None => zoomIdentity end.

Definition getSVGCoordinates (ev : PointerEvent) (s : State) : Q * Q :=
  let transform := currentTransform s in
  ((clientX ev - rect_left ev - t_x transform) / t_k transform,
   (clientY ev - rect_top ev - t_y transform) / t_k transform).

(** ** Graph operations *)

(** [state.nodes.find(n => p(n))] *)
Definition find_node (p : Node -> bool) (s : State) : option ref :=
  find (fun r => p (heap s r)) (nodes s).

(** Allocation of a node object. *)
Definition new_object (n : Node) : M ref :=
  s <- get;;
  modify (fun s => set_nextRef (S (nextRef s)) (set_heap (store (nextRef s) n (heap s)) s));;
  ret (nextRef s).

(** [restart()]: the selections are redrawn (not modelled) and the
    simulation is restarted with [alpha(1)]. *)
Definition restart : M unit := modify (set_alpha 1).

Definition createNode (x y : Q) (type : NodeType) (parentId : option Z)
    (now : jsstring) : M ref :=
  s <- get;;
  node <- new_object
    (mkNode (nextId s) x y None None type
       (if NodeType_eqb type root then rootNoteTemplate else [])
       now parentId []);;
  modify (fun s => set_nextId (number_add (nextId s) 1) s);;      (* state.nextId++ *)
  modify (fun s => set_nodes (nodes s ++ [node]) s);;
  restart;;
  ret node.

Definition createLink (source target : ref) (isBreakerLink : bool) : M unit :=
  s <- get;;
  let link := mkLink (EObj source) (EObj target)
                (Some (n_id (heap s source)), Some (n_id (heap s target)))
                isBreakerLink in
  modify (fun s => set_links (links s ++ [link]) s);;
  restart;;
  modify (fun s =>
    set_charge (CONFIG.chargeStrength
                * Qmin (inject_Z (Z.of_nat (length (links s))) / 5) 2) s);;
  modify (set_alpha (1 # 2)).

(** [typeof e === 'object' ? e : state.nodes.find(n => n.id === e)] *)
Definition resolveEndpoint (e : Endpoint) (s : State) : option ref :=
  match e with
  | EObj r => Some r
  | EId i => find_node (fun n => (n_id n =? i)%Z) s
  end.

Definition set_note (r : ref) (text : jsstring) (s : State) : State :=
  let n := heap s r in
  set_heap (store r (mkNode (n_id n) (n_x n) (n_y n) (n_fx n) (n_fy n) (n_type n)
                       text (n_createdAt n) (n_parentId n) (n_children n))
                  (heap s)) s.

Definition set_parentId (r : ref) (p : option Z) (s : State) : State :=
  let n := heap s r in
  set_heap (store r (mkNode (n_id n) (n_x n) (n_y n) (n_fx n) (n_fy n) (n_type n)
                       (n_note n) (n_createdAt n) p (n_children n))
                  (heap s)) s.

Definition set_children (r : ref) (c : list Z) (s : State) : State :=
  let n := heap s r in
  set_heap (store r (mkNode (n_id n) (n_x n) (n_y n) (n_fx n) (n_fy n) (n_type n)
                       (n_note n) (n_createdAt n) (n_parentId n) c)
                  (heap s)) s.

Definition createBreakerOnLine (linkData : Link) (now : jsstring) : M (option ref) :=
  s <- get;;
  match resolveEndpoint (l_source linkData) s, resolveEndpoint (l_target linkData) s with
  | Some sourceNode, Some targetNode =>
      let midX := (n_x (heap s sourceNode) + n_x (heap s targetNode)) / 2 in
      let midY := (n_y (heap s sourceNode) + n_y (heap s targetNode)) / 2 in
      modify (fun s =>
        set_links (filter (fun l => negb (LinkId_eqb (l_id l) (l_id linkData))) (links s)) s);;
      breakerNode <- createNode midX midY breaker None now;;
      modify (set_note breakerNode breakerNoteText);;
      createLink sourceNode breakerNode true;;
      createLink breakerNode targetNode true;;
      ret (Some breakerNode)
  | _, _ => ret None
  end.

(** [updateParentChildRelationships]; no function of app.js calls it. *)
Definition updateParentChildRelationships (parentNode childNode : option ref)
    (isAdding : bool) : M unit :=
  match parentNode, childNode with
  | Some p, Some c =>
      if isAdding then
        modify (fun s => set_children p (n_children (heap s p) ++ [n_id (heap s c)]) s);;
        modify (fun s => set_parentId c (Some (n_id (heap s p))) s)
      else
        modify (fun s =>
          set_children p
            (filter (fun i => negb (i =? n_id (heap s c))%Z) (n_children (heap s p))) s);;
        modify (set_parentId c None)
  | _, _ => ret tt
  end.

(** ** Persistence *)

Definition wire_of_node (n : Node) : WireNode :=
  mkWireNode (n_id n) (n_type n) (n_note n) (Some (n_x n)) (Some (n_y n))
    (n_createdAt n) (n_parentId n) (Some (n_children n)).

(** [e.id] for an endpoint [e]: a number has no [id] property. *)
Definition endpoint_id (s : State) (e : Endpoint) : option Z :=
  match e with
  | EObj r => Some (n_id (heap s r))
  | EId _ => None
  end.

Definition wire_of_link (s : State) (l : Link) : WireLink :=
  mkWireLink (endpoint_id s (l_source l)) (endpoint_id s (l_target l))
    (Some (l_isBreakerLink l)).

(** The body [saveGraph] builds from the state. *)
Definition graphData (s : State) : Payload :=
  mkPayload (Some (map (fun r => wire_of_node (heap s r)) (nodes s)))
            (Some (map (wire_of_link s) (links s))).

(** [saveGraph()]: the body is serialized and POSTed at once; the response
    is not awaited and a failure is only logged. *)
Definition saveGraph : M unit :=
  modify (fun s => set_posted (posted s ++ [graphData s]) s).

(** [v || fallback] on a number that may be missing. *)
Definition num_or (v : option Q) (fallback : Q) : Q :=
  match v with
  | Some q => if Qeq_bool q 0 then fallback else q
  | None => fallback
  end.

(** The object [loadGraph] builds for the [i]-th node of the body.  [rnd]
    gives the values of [Math.random()]: [rnd (2 * i)] for the x fallback of
    that node and [rnd (2 * i + 1)] for the y fallback. *)
Definition node_of_wire (rnd : nat -> Q) (s : State) (i : nat) (n : WireNode) : Node :=
  mkNode (w_id n)
    (num_or (w_x n) (width s / 2 + (rnd (2 * i)%nat - (1 # 2)) * 200))
    (num_or (w_y n) (height s / 2 + (rnd (2 * i + 1)%nat - (1 # 2)) * 200))
    None None (w_type n) (w_note n) (w_createdAt n)
    (match w_parentId n with
     | Some p => if (p =? 0)%Z then None else Some p
     | None => None
     end)
    (match w_children n with Some c => c | None => [] end).

(** [data.nodes.map(n => ({...}))], allocating one object per element. *)
Fixpoint load_nodes (rnd : nat -> Q) (i : nat) (ws : list WireNode) : M (list ref) :=
  match ws with
  | [] => ret []
  | w :: ws' =>
      s <- get;;
      r <- new_object (node_of_wire rnd s i w);;
      rs <- load_nodes rnd (S i) ws';;
      ret (r :: rs)
  end.

(** [state.nodes.find(n => n.id === v)] for a value [v] of the body. *)
Definition find_by_wire_id (v : option Z) (s : State) : option ref :=
  match v with
  | Some i => find_node (fun n => (n_id n =? i)%Z) s
  | None => None
  end.

(** The object [data.links.map] builds for one link of the body; an endpoint
    that [find] does not resolve is [undefined]. *)
Record LoadedLink := mkLoadedLink {
  ll_source : option ref;
  ll_target : option ref;
  ll_id : LinkId;
  ll_isBreakerLink : bool
}.

Definition loaded_of_wire (s : State) (l : WireLink) : LoadedLink :=
  mkLoadedLink (find_by_wire_id (w_source l) s) (find_by_wire_id (w_target l) s)
    (w_source l, w_target l)
    (match w_isBreakerLink l with Some b => b | None => false end).

(** [.filter(l => l.source && l.target)]: the links with both endpoints
    resolved are kept, in order. *)
Fixpoint keep_resolved (ls : list LoadedLink) : list Link :=
  match ls with
  | [] => []
  | l :: ls' =>
      match ll_source l, ll_target l with
      | Some src, Some tgt =>
          mkLink (EObj src) (EObj tgt) (ll_id l) (ll_isBreakerLink l) :: keep_resolved ls'
      | _, _ => keep_resolved ls'
      end
  end.

(** [Math.max(z, ...zs)] *)
Definition Math_max (z : Z) (zs : list Z) : Z := fold_left Z.max zs z.

(** The callback [loadGraph] runs on the parsed body. *)
Definition loadGraph_onData (rnd : nat -> Q) (data : Payload) : M unit :=
  match p_nodes data with
  | Some (w :: ws) =>
      rs <- load_nodes rnd 0 (w :: ws);;
      modify (set_nodes rs);;
      match p_links data with
      | Some ls =>
          modify (fun s => set_links (keep_resolved (map (loaded_of_wire s) ls)) s);;
          modify (fun s =>
            match map (fun r => n_id (heap s r)) (nodes s) with
            | z :: zs => set_nextId (number_add (Math_max z zs) 1) s
            | [] => s                 (* not reached: data.nodes.length > 0 *)
            end);;
          restart
      | None => throw TypeError       (* data.links.map with data.links undefined *)
      end
  | _ => ret tt
  end.

(** [loadGraph()], from the arrival of the body on. *)
Definition loadGraph (rnd : nat -> Q) (data : Payload) : M unit :=
  catch_log (loadGraph_onData rnd data).

(** ** Editor *)

(** [openEditor(node)]: the panel is shown and the widget is given the note.
    The context display is drawn from [getNodeContext] (below) and changes no
    state.  A [change] event of the widget enters the model only as the
    event [editorChange]; this includes the one the widget emits when its
    value is set here, so a click on a node is followed by an [editorChange]
    with the stored note. *)
Definition openEditor (node : ref) : M unit :=
  modify (set_editorActive true);;
  modify (fun s => set_editorValue (n_note (heap s node)) s).

Definition selectNode (node : ref) : M unit :=
  modify (set_selectedNode (Some node));;
  openEditor node.

Definition closeEditor : M unit :=
  modify (set_editorActive false);;
  s <- get;;
  match selectedNode s with
  | Some _ => modify (set_selectedNode None)
  | None => ret tt
  end;;
  saveGraph.

(** ** Deleting the selected node *)

(** [arr.find(cb)] for a callback that may throw: the callback runs on the
    elements in order until it returns true. *)
Fixpoint findM (cb : Node -> M bool) (rs : list ref) : M (option ref) :=
  match rs with
  | [] => ret None
  | r :: rs' =>
      s <- get;;
      b <- cb (heap s r);;
      if b then ret (Some r) else findM cb rs'
  end.

(** [id !== nodeId] for an endpoint's id: an object's [id], or the bare id. *)
Definition endpoint_is (s : State) (e : Endpoint) (nodeId : Z) : bool :=
  match e with
  | EObj r => (n_id (heap s r) =? nodeId)%Z
  | EId i => (i =? nodeId)%Z
  end.

(** [state.nodes.forEach(n => { if (n.parentId === nodeId) n.parentId = null })] *)
Fixpoint orphan_children (nodeId : Z) (rs : list ref) (s : State) : State :=
  match rs with
  | [] => s
  | r :: rs' =>
      orphan_children nodeId rs'
        (if optZ_eqb (n_parentId (heap s r)) (Some nodeId)
         then set_parentId r None s else s)
  end.

Definition deleteSelectedNode (this : ThisArg) : M unit :=
  s <- get;;
  match selectedNode s with
  | None => ret tt
  | Some sel =>
      let nodeId := n_id (heap s sel) in
      (* const parentId = this.parentId; *)
      match this with
      | ThisUndefined => throw TypeError
      | ThisElement => ret tt
      end;;
      (* state.nodes.find(n => n.id === node.parentId): no [node] is in scope *)
      parentNode <- findM (fun _ => throw ReferenceError) (nodes s);;
      modify (fun s =>
        set_links (filter (fun link => negb (endpoint_is s (l_source link) nodeId)
                                       && negb (endpoint_is s (l_target link) nodeId))
                          (links s)) s);;
      match parentNode with
      | Some p =>
          modify (fun s =>
            set_children p
              (filter (fun i => negb (i =? nodeId)%Z) (n_children (heap s p))) s)
      | None => ret tt
      end;;
      modify (fun s => orphan_children nodeId (nodes s) s);;
      modify (fun s =>
        set_nodes (filter (fun r => negb (n_id (heap s r) =? nodeId)%Z) (nodes s)) s);;
      closeEditor;;
      restart;;
      saveGraph
  end.

(** ** Context of a node *)

(** The two label templates, [`От родителя #${id}:`] and
    [`От дочерней #${id}:`]. *)
Inductive Label := FromParent (i : Z) | FromChild (i : Z).

Record ContextPart := mkContextPart { label : Label; text : jsstring }.

Definition MAX_CHARS : nat := 400.

(** [if (node.parentId)]: null and 0 are falsy. *)
Definition truthy_id (p : option Z) : option Z :=
  match p with
  | Some i => if (i =? 0)%Z then None else Some i
  | None => None
  end.

Definition getNodeContext (s : State) (node : Node) : list ContextPart :=
  let contextParts : list ContextPart := [] in
  let contextParts :=
    match truthy_id (n_parentId node) with
    | Some pid =>
        match find_node (fun n => (n_id n =? pid)%Z) s with
        | Some parentNode =>
            if str_truthy (n_note (heap s parentNode))
               && str_truthy (trim (n_note (heap s parentNode)))
            then
              let noteText := trim (n_note (heap s parentNode)) in
              let displayText :=
                if (MAX_CHARS <? length noteText)%nat
                then dots ++ substring_from (length noteText - MAX_CHARS) noteText
                else noteText in
              contextParts ++ [mkContextPart (FromParent (n_id (heap s parentNode))) displayText]
            else contextParts
        | None => contextParts
        end
    | None => contextParts
    end in
  if (0 <? length (n_children node))%nat then
    fold_left
      (fun contextParts childId =>
         match find_node (fun n => (n_id n =? childId)%Z) s with
         | Some childNode =>
             if str_truthy (n_note (heap s childNode))
                && str_truthy (trim (n_note (heap s childNode)))
             then
               let noteText := trim (n_note (heap s childNode)) in
               let displayText :=
                 if (MAX_CHARS <? length noteText)%nat
                 then dots ++ substring_from (length noteText - MAX_CHARS) noteText
                 else noteText in
               contextParts ++ [mkContextPart (FromChild (n_id (heap s childNode))) displayText]
             else contextParts
         | None => contextParts
         end)
      (n_children node) contextParts
  else contextParts.

(** ** Connection drawing *)

Definition setConnectionSource (node : ref) : M unit :=
  modify (set_connectionSourceNode (Some node)).

Definition clearConnectionSelection : M unit :=
  s <- get;;
  match connectionSourceNode s with
  | Some _ => modify (set_connectionSourceNode None)
  | None => ret tt
  end.

Definition handleCtrlClickForConnection (clickedNode : ref) : M unit :=
  s <- get;;
  match connectionSourceNode s with
  | Some src =>
      if (n_id (heap s src) =? n_id (heap s clickedNode))%Z
      then clearConnectionSelection
      else createLink src clickedNode false;; clearConnectionSelection
  | None => setConnectionSource clickedNode
  end.

(** ** Pointer handlers *)

Definition handleBackgroundClick (ev : PointerEvent) (now : jsstring) : M unit :=
  if negb (targetIsSvg ev) then ret tt
  else if ctrlKey ev then
    s <- get;;
    let coords := getSVGCoordinates ev s in
    createNode (fst coords) (snd coords) root None now;;
    ret tt
  else
    s <- get;;
    match connectionSourceNode s with
    | Some _ => clearConnectionSelection
    | None => ret tt
    end;;
    s <- get;;
    if editorActive s then closeEditor else ret tt.

Definition handleBackgroundRightClick (ev : PointerEvent) (now : jsstring) : M unit :=
  if ctrlKey ev then
    s <- get;;
    if isDragging s || isPanning s then ret tt
    else
      let coords := getSVGCoordinates ev s in
      createNode (fst coords) (snd coords) root None now;;
      ret tt
  else ret tt.

Definition handleNodeClick (ev : PointerEvent) (d : ref) : M unit :=
  s <- get;;
  if isDragging s then ret tt
  else if ctrlKey ev then handleCtrlClickForConnection d
  else selectNode d.

(** [cosA] and [sinA] are the values of [Math.cos(angle)] and
    [Math.sin(angle)] for the random angle the handler draws. *)
Definition handleNodeRightClick (cosA sinA : Q) (now : jsstring) (d : ref) : M unit :=
  s <- get;;
  if isDragging s then ret tt
  else
    clearConnectionSelection;;
    s <- get;;
    let distance := CONFIG.linkDistance in
    newNode <- createNode (n_x (heap s d) + cosA * distance)
                          (n_y (heap s d) + sinA * distance)
                          child (Some (n_id (heap s d))) now;;
    createLink d newNode false.

Definition handleLinkClick (ev : PointerEvent) (d : Link) (now : jsstring) : M unit :=
  if ctrlKey ev then createBreakerOnLine d now;; ret tt else ret tt.

(** ** Wheel zoom *)

(** [a > b] on numbers. *)
Definition Qgt_bool (a b : Q) : bool := negb (Qle_bool a b).

(** The transform [handleWheel] hands to [state.zoom.transform]. *)
Definition wheelTransform (ev : PointerEvent) (transform : Transform) : Transform :=
  let zoomFactor : Q := if Qgt_bool (deltaY ev) 0 then 9 # 10 else 11 # 10 in
  let newScale := t_k transform * zoomFactor in
  let clampedScale := Qmax CONFIG.zoomMin (Qmin CONFIG.zoomMax newScale) in
  let mouseX := clientX ev - rect_left ev in
  let mouseY := clientY ev - rect_top ev in
  scale (translate transform
           (mouseX - (mouseX - t_x transform) * (clampedScale / t_k transform))
           (mouseY - (mouseY - t_y transform) * (clampedScale / t_k transform)))
        clampedScale.

(** [handleWheel(event)].  [zoom.transform] sets the given transform as it
    is, since d3-zoom enforces [scaleExtent] on its own gestures and on
    [scaleBy], [scaleTo] and [translateBy] only; when the transition has run,
    the zoom listener has stored the transform in [state.zoomTransform] and
    [state.currentZoom], and the end listener has set [alpha(0.1)].  The
    wheel listener d3-zoom installs itself is a handler of its own and is not
    part of [handleWheel]. *)
Definition handleWheel (ev : PointerEvent) : M unit :=
  s <- get;;
  let transform := currentTransform s in
  let newTransform := wheelTransform ev transform in
  modify (set_zoom newTransform);;
  modify (set_alpha (1 # 10)).

(** ** Timers and the debounced change handler *)

(** [clearTimeout(id)] *)
Definition clearTimeout (id : option nat) : M unit :=
  match id with
  | Some i => modify (fun s => set_timers (filter (fun j => negb (Nat.eqb j i)) (timers s)) s)
  | None => ret tt
  end.

(** [setTimeout(later, wait)]: the callback is queued under a fresh id. *)
Definition setTimeout : M nat :=
  s <- get;;
  modify (fun s => set_timers (timers s ++ [nextTimer s]) s);;
  modify (fun s => set_nextTimer (S (nextTimer s)) s);;
  ret (nextTimer s).

(** The function [initMarkdownEditor] debounces. *)
Definition onEditorChange : M unit :=
  s <- get;;
  match selectedNode s with
  | Some sel =>
      modify (fun s => set_note sel (editorValue s) s);;
      saveGraph
  | None => ret tt
  end.

(** [later] of [debounce]. *)
Definition later : M unit :=
  s <- get;;
  clearTimeout (timeout s);;
  onEditorChange.

(** [executedFunction] of [debounce]. *)
Definition executedFunction : M unit :=
  s <- get;;
  clearTimeout (timeout s);;
  id <- setTimeout;;
  modify (set_timeout (Some id)).

(** The user changes the text of the editor to [value]; the widget emits
    [change]. *)
Definition editorChange (value : jsstring) : M unit :=
  modify (set_editorValue value);;
  executedFunction.

(** The timer [id] expires: if it is still pending its callback runs. *)
Definition timerFires (id : nat) : M unit :=
  s <- get;;
  if existsb (Nat.eqb id) (timers s) then
    modify (fun s => set_timers (filter (fun j => negb (Nat.eqb j id)) (timers s)) s);;
    later
  else ret tt.

(** ** Keyboard and buttons *)

Definition handleKeydown (key : Key) (ctrl : bool) : M unit :=
  match key with
  | KeyEscape => closeEditor;; clearConnectionSelection
  | _ => ret tt
  end;;
  (if ctrl && match key with KeyS => true | _ => false end
   then saveGraph else ret tt);;
  s <- get;;
  match key, selectedNode s with
  | KeyDelete, Some _ => deleteSelectedNode ThisUndefined
  | _, _ => ret tt
  end.

(** The [save-note] button. *)
Definition saveNoteClick : M unit := saveGraph.

(** The [delete-node] button: the listener is [deleteSelectedNode] itself,
    called with the button as [this]. *)
Definition deleteNodeClick : M unit := deleteSelectedNode ThisElement.

(** ** The state when the page has loaded *)

Definition unallocated : Node := mkNode 0 0 0 None None root [] [] None [].

Definition initialState (w h : Q) : State :=
  mkState (fun _ => unallocated) 0%nat [] [] 1%Z None None false false w h 1 None
    CONFIG.chargeStrength 1 false [] None [] 1%nat [].

(** * Specification-level definitions *)

(** ** The heap and loading *)

(** The objects [ns] stored at the references [r], [r + 1], ... *)
Fixpoint store_all (r : ref) (ns : list Node) (h : ref -> Node) : ref -> Node :=
  match ns with
  | [] => h
  | n :: ns' => store_all (S r) ns' (store r n h)
  end.

(** The objects [loadGraph] builds for the nodes of a body, in order. *)
Fixpoint nodes_of_wire (rnd : nat -> Q) (s : State) (i : nat) (ws : list WireNode)
    : list Node :=
  match ws with
  | [] => []
  | w :: ws' => node_of_wire rnd s i w :: nodes_of_wire rnd s (S i) ws'
  end.

(** An id of the body resolves when some loaded node carries it. *)
Definition resolves_in (ids : list Z) (v : option Z) : bool :=
  match v with
  | Some i => existsb (Z.eqb i) ids
  | None => false
  end.

Definition is_some {A} (o : option A) : bool :=
  match o with Some _ => true | None => false end.

Definition node_ids (s : State) : list Z := map (fun r => n_id (heap s r)) (nodes s).

(** A link of the body as [saveGraph] would write it back. *)
Definition normal_link (l : WireLink) : WireLink :=
  mkWireLink (w_source l) (w_target l)
    (Some (match w_isBreakerLink l with Some b => b | None => false end)).


(** The state left for a body with nodes [w :: ws] and links [ls]. *)
Definition loaded (rnd : nat -> Q) (s : State) (w : WireNode) (ws : list WireNode) (ls : list WireLink)
    : State :=
  let s1 := set_nodes (seq (nextRef s) (S (length ws)))
              (set_nextRef (nextRef s + S (length ws))%nat
                 (set_heap (store_all (nextRef s) (nodes_of_wire rnd s 0 (w :: ws)) (heap s)) s)) in
  set_alpha 1
    (set_nextId (number_add (Math_max (w_id w) (map w_id ws)) 1)
       (set_links (keep_resolved (map (loaded_of_wire s1) ls)) s1)).

(** ** Repulsion *)

(** The charge strength for a given number of links:
    [CONFIG.chargeStrength * Math.min(linkCount / 5, 2)]. *)
Definition chargeFor (linkCount : nat) : Q :=
  CONFIG.chargeStrength * Qmin (inject_Z (Z.of_nat linkCount) / 5) 2.

(** The repulsion got stronger from [s] to [s']. *)
Definition repulsion_increased (s s' : State) : Prop :=
  Qabs (charge s) < Qabs (charge s').

(** ** Splitting a link *)


(** The node [createNode] builds. *)
Definition freshNode (x y : Q) (type : NodeType) (parentId : option Z)
    (now : jsstring) (s : State) : Node :=
  mkNode (nextId s) x y None None type
    (if NodeType_eqb type root then rootNoteTemplate else []) now parentId [].

(** ** Context of a node, as a specification *)

(** The last [n] code units of a string. *)
Definition last_chars (n : nat) (s : jsstring) : jsstring := rev (firstn n (rev s)).

(** A note cut to its last [MAX_CHARS] code units behind an ellipsis; [None]
    when nothing is left of the note after trimming. *)
Definition tail_excerpt (note : jsstring) : option jsstring :=
  match trim note with
  | [] => None
  | t => Some (if (MAX_CHARS <? length t)%nat then dots ++ last_chars MAX_CHARS t else t)
  end.

(** A note cut to its first [MAX_CHARS] code units. *)
Definition head_excerpt (note : jsstring) : option jsstring :=
  match trim note with
  | [] => None
  | t => Some (if (MAX_CHARS <? length t)%nat then firstn MAX_CHARS t else t)
  end.

(** The entry for the note of the node with id [i], if that node exists and
    its note leaves an excerpt. *)
Definition context_entry (excerpt : jsstring -> option jsstring)
    (mkLabel : Z -> Label) (s : State) (i : Z) : list ContextPart :=
  match find_node (fun n => (n_id n =? i)%Z) s with
  | Some r =>
      match excerpt (n_note (heap s r)) with
      | Some t => [mkContextPart (mkLabel (n_id (heap s r))) t]
      | None => []
      end
  | None => []
  end.

(** The parent's entry first, cut at its end, then the children's entries in
    the order of [children], cut by [childExcerpt]. *)
Definition contextOf (childExcerpt : jsstring -> option jsstring)
    (s : State) (node : Node) : list ContextPart :=
  match truthy_id (n_parentId node) with
  | Some pid => context_entry tail_excerpt FromParent s pid
  | None => []
  end
  ++ flat_map (context_entry childExcerpt FromChild s) (n_children node).

(** ** Parent/child bookkeeping *)

(** [children] and [parentId] agree: a node whose id is among the children
    of [n] has [n] as its parent, and a node whose parent is [n] is among the
    children of [n]. *)
Definition consistent (s : State) : Prop :=
  (forall r r', In r (nodes s) -> In r' (nodes s) ->
     In (n_id (heap s r')) (n_children (heap s r)) ->
     n_parentId (heap s r') = Some (n_id (heap s r)))
  /\ (forall r r', In r (nodes s) -> In r' (nodes s) ->
        n_parentId (heap s r') = Some (n_id (heap s r)) ->
        In (n_id (heap s r')) (n_children (heap s r))).

(** ** Viewport *)

(** The world point under the pointer: [getSVGCoordinates] for a transform. *)
Definition screenToWorld (t : Transform) (ev : PointerEvent) : Q * Q :=
  ((clientX ev - rect_left ev - t_x t) / t_k t,
   (clientY ev - rect_top ev - t_y t) / t_k t).

Definition same_point (p q : Q * Q) : Prop := fst p == fst q /\ snd p == snd q.

Definition same_transform (t t' : Transform) : Prop :=
  t_k t == t_k t' /\ t_x t == t_x t' /\ t_y t == t_y t'.

(** The scale [handleWheel] clamps to the zoom range. *)
Definition clampedScale (ev : PointerEvent) (transform : Transform) : Q :=
  Qmax CONFIG.zoomMin
    (Qmin CONFIG.zoomMax
       (t_k transform * (if Qgt_bool (deltaY ev) 0 then 9 # 10 else 11 # 10))).

Definition scale_in_range (s : State) : Prop :=
  CONFIG.zoomMin <= currentZoom s <= CONFIG.zoomMax
  /\ CONFIG.zoomMin <= t_k (currentTransform s) <= CONFIG.zoomMax.

(** ** Saving *)


(** * Scenarios *)

(** A ctrl-click, a plain click and a wheel step towards zoom-in at the
    screen point (px, py), on an svg element whose rectangle starts at
    (0, 0). *)
Definition ctrlClickAt (px py : Q) : PointerEvent := mkPointerEvent px py 0 0 0 true true.
Definition clickAt (px py : Q) : PointerEvent := mkPointerEvent px py 0 0 0 false true.
Definition wheelUpAt (px py : Q) : PointerEvent := mkPointerEvent px py 0 0 (-100) false true.

(** A wheel event of a sideways scroll at (px, py): its [deltaY] is 0.
    d3-zoom's own wheel listener, which runs before [handleWheel], handles and
    stops a wheel event that would change the scale within [scaleExtent]; it
    leaves alone an event that would not, which is one with [deltaY] 0, or one
    towards zoom-in at the largest scale or towards zoom-out at the smallest.
    Those are the wheel events that reach [handleWheel]. *)
Definition wheelAsideAt (px py : Q) : PointerEvent := mkPointerEvent px py 0 0 0 false true.

(** The page as loaded in an 800 x 600 window. *)
Definition page : State := initialState 800 600.

(** One root node, created by a ctrl-click on the background. *)
Definition oneRoot : State := exec (handleBackgroundClick (ctrlClickAt 100 100) []) page.

(** A body with two nodes and three links, two of them dangling. *)
Definition bodyWithDanglingLinks : Payload :=
  mkPayload
    (Some [mkWireNode 4 root [65%N] (Some 10) (Some 20) [] None (Some [7%Z]);
           mkWireNode 7 child [66%N] (Some 30) (Some 40) [] (Some 4%Z) None])
    (Some [mkWireLink (Some 4%Z) (Some 7%Z) None;
           mkWireLink (Some 4%Z) (Some 9%Z) (Some true);
           mkWireLink None (Some 7%Z) None]).

(** A body whose one node has the id 2^53, and the page once it is loaded. *)
Definition bodyAtTwo53 : Payload :=
  mkPayload (Some [mkWireNode two53 root [65%N] (Some 10) (Some 20) [] None None])
            (Some []).

Definition loadedAtTwo53 : State := exec (loadGraph (fun _ => 0) bodyAtTwo53) page.

(** A body without nodes but with a link. *)
Definition bodyWithoutNodes : Payload :=
  mkPayload (Some []) (Some [mkWireLink (Some 1%Z) (Some 2%Z) None]).

(** Two root nodes. *)
Definition twoRoots : State :=
  run_events [handleBackgroundClick (ctrlClickAt 100 100) [];
              handleBackgroundClick (ctrlClickAt 300 100) []] page.

(** Ctrl-click on the first node, then on the second: one link 1 -> 2. *)
Definition connectFirstToSecond : list (M unit) :=
  [handleNodeClick (ctrlClickAt 100 100) 0%nat;
   handleNodeClick (ctrlClickAt 300 100) 1%nat].

(** Ten parallel links between the two roots. *)
Definition tenLinks : State :=
  run_events (concat (repeat connectFirstToSecond 10)) twoRoots.


Definition link12 : Link := mkLink (EObj 0%nat) (EObj 1%nat) (Some 1%Z, Some 2%Z) false.



(** A note of 401 code units: one A, then 400 B. *)
Definition longNote : jsstring := 65%N :: repeat 66%N 400.

(** A loaded graph: node 1 with the child 2, whose note is [longNote]. *)
Definition parentWithLongChild : State :=
  exec (loadGraph (fun _ => 0)
          (mkPayload
             (Some [mkWireNode 1 root [80%N] (Some 10) (Some 10) [] None (Some [2%Z]);
                    mkWireNode 2 child longNote (Some 50) (Some 50) [] (Some 1%Z) (Some [])])
             (Some [mkWireLink (Some 1%Z) (Some 2%Z) None])))
       page.

(** A right-click on the root node spawns a child. *)
Definition childSpawned : State :=
  exec (handleNodeRightClick 1 0 [] 0%nat) oneRoot.

(** The child is then selected by a click. *)
Definition childSelected : State :=
  exec (handleNodeClick (clickAt 250 100) 1%nat) childSpawned.

(** The page after five sideways wheel events at (100, 100). *)
Definition fiveWheelsAside : State :=
  run_events (repeat (handleWheel (wheelAsideAt 100 100)) 5) page.

(** The page panned by (50, 0), and the page at the largest scale, panned by
    (20, 30). *)
Definition panned : State := set_zoom (mkTransform 1 50 0) page.
Definition zoomedToMax : State := set_zoom (mkTransform 5 20 30) page.

(** The page at the largest scale after one wheel step towards zoom-in. *)
Definition wheelUpAtMax : State := exec (handleWheel (wheelUpAt 100 100)) zoomedToMax.

(** The root node is selected, then the text of the editor is changed to
    "Hi"; the debounced write is pending. *)
Definition rootSelected : State :=
  exec (handleNodeClick (clickAt 100 100) 0%nat) oneRoot.


(** * The rest of the interaction surface *)

(** ** Tooltip *)

(** ['Пустая заметка'] *)
Definition emptyNoteText : jsstring :=
  [1055; 1091; 1089; 1090; 1072; 1103; 32; 1079; 1072; 1084; 1077; 1090; 1082;
   1072]%N.

(** The text of the node type line of the tooltip and of the editor:
    ['Основная точка'], [`Дочерняя (от #${parentId})`], ['Дочерняя'] and
    ['Разрывающая связь']. *)
Inductive NodeTypeText :=
| MainPoint
| ChildOf (parentId : Z)
| ChildText
| BreakerText.

(** The node type line, as [showTooltip] and [openEditor] compute it. *)
Definition nodeTypeText (d : Node) : NodeTypeText :=
  match n_type d with
  | child =>
      match truthy_id (n_parentId d) with
      | Some p => ChildOf p
      | None => ChildText
      end
  | breaker => BreakerText
  | root => MainPoint
  end.

(** The preview line of [showTooltip], before [escapeHtml]. *)
Definition tooltipPreview (d : Node) : jsstring :=
  let noteText := if str_truthy (n_note d) then trim (n_note d) else [] in
  if str_truthy noteText
  then firstn 100 noteText ++ (if (100 <? length noteText)%nat then dots else [])
  else emptyNoteText.

(** ** Dragging and panning *)

(** The state above together with the fields of [state] and of the
    simulation that only the drag and pan handlers use. *)
Record Session := mkSession {
  app : State;
  draggedNode : option ref;      (* state.draggedNode *)
  panStartX : Q;                 (* state.panStartX *)
  panStartY : Q;                 (* state.panStartY *)
  alphaTarget : Q                (* the simulation's alphaTarget *)
}.

Definition set_app (v : State) (u : Session) : Session :=
  mkSession v (draggedNode u) (panStartX u) (panStartY u) (alphaTarget u).

Definition set_draggedNode (v : option ref) (u : Session) : Session :=
  mkSession (app u) v (panStartX u) (panStartY u) (alphaTarget u).

Definition set_panStart (vx vy : Q) (u : Session) : Session :=
  mkSession (app u) (draggedNode u) vx vy (alphaTarget u).

Definition set_alphaTarget (v : Q) (u : Session) : Session :=
  mkSession (app u) (draggedNode u) (panStartX u) (panStartY u) v.

Definition set_isDragging (v : bool) (s : State) : State :=
  mkState (heap s) (nextRef s) (nodes s) (links s) (nextId s) (selectedNode s)
    (connectionSourceNode s) v (isPanning s) (width s) (height s)
    (currentZoom s) (zoomTransform s) (charge s) (alpha s) (editorActive s)
    (editorValue s) (timeout s) (timers s) (nextTimer s) (posted s).

Definition set_isPanning (v : bool) (s : State) : State :=
  mkState (heap s) (nextRef s) (nodes s) (links s) (nextId s) (selectedNode s)
    (connectionSourceNode s) (isDragging s) v (width s) (height s)
    (currentZoom s) (zoomTransform s) (charge s) (alpha s) (editorActive s)
    (editorValue s) (timeout s) (timers s) (nextTimer s) (posted s).

(** [d.fx = fx; d.fy = fy] *)
Definition set_fixed (r : ref) (fx fy : option Q) (s : State) : State :=
  let n := heap s r in
  set_heap (store r (mkNode (n_id n) (n_x n) (n_y n) fx fy (n_type n)
                       (n_note n) (n_createdAt n) (n_parentId n) (n_children n))
                  (heap s)) s.

(** [handleSvgMouseDown(event)]; [onNode] is [event.target.closest('.node')]
    and [button] is [event.button]. *)
Definition handleSvgMouseDown (ev : PointerEvent) (button : Z) (onNode : bool)
    (u : Session) : Session :=
  if onNode then u
  else if (button =? 0)%Z then
    set_panStart (clientX ev) (clientY ev) (set_app (set_isPanning true (app u)) u)
  else u.

(** [handleNodeMouseDown(event, d)] *)
Definition handleNodeMouseDown (button : Z) (d : ref) (u : Session) : Session :=
  if (button =? 0)%Z then
    let s := app u in
    let s := set_isDragging true s in
    let s := set_fixed d (Some (n_x (heap s d))) (Some (n_y (heap s d))) s in
    set_alphaTarget (3 # 10) (set_draggedNode (Some d) (set_app s u))
  else u.

(** [state.svg.call(state.zoom.transform, t)]: the transform is set at once;
    the zoom listener stores it and the end listener sets [alpha(0.1)]. *)
Definition applyZoom (t : Transform) (s : State) : State :=
  set_alpha (1 # 10) (set_zoom t s).

(** [handleGlobalMouseMove(event)] *)
Definition handleGlobalMouseMove (ev : PointerEvent) (u : Session) : Session :=
  let u :=
    match isDragging (app u), draggedNode u with
    | true, Some d =>
        let coords := getSVGCoordinates ev (app u) in
        set_app (set_fixed d (Some (fst coords)) (Some (snd coords)) (app u)) u
    | _, _ => u
    end in
  if isPanning (app u) then
    let dx := clientX ev - panStartX u in
    let dy := clientY ev - panStartY u in
    let transform := currentTransform (app u) in
    let newTransform := translate transform dx dy in
    set_panStart (clientX ev) (clientY ev) (set_app (applyZoom newTransform (app u)) u)
  else u.

(** [handleGlobalMouseUp(event)] *)
Definition handleGlobalMouseUp (u : Session) : Session :=
  let u :=
    match isDragging (app u), draggedNode u with
    | true, Some d =>
        set_draggedNode None
          (set_app (set_isDragging false (set_fixed d None None (app u)))
             (set_alphaTarget 0 u))
    | _, _ => u
    end in
  if isPanning (app u) then set_app (set_isPanning false (app u)) u else u.

(** [dragstarted(event, d)]; [active] is [event.active]. *)
Definition dragstarted (active : Z) (d : ref) (u : Session) : Session :=
  let u := if (active =? 0)%Z then set_alphaTarget (3 # 10) u else u in
  let s := app u in
  let s := set_fixed d (Some (n_x (heap s d))) (Some (n_y (heap s d))) s in
  set_draggedNode (Some d) (set_app (set_isDragging true s) u).

(** [dragged(event, d)]; [ex] and [ey] are [event.x] and [event.y]. *)
Definition dragged (ex ey : Q) (d : ref) (u : Session) : Session :=
  set_app (set_fixed d (Some ex) (Some ey) (app u)) u.

(** [dragended(event, d)] *)
Definition dragended (active : Z) (d : ref) (u : Session) : Session :=
  let u := if (active =? 0)%Z then set_alphaTarget 0 u else u in
  set_draggedNode None
    (set_app (set_isDragging false (set_fixed d None None (app u))) u).

(** The pointer moves through the positions of [evs], in order. *)
Definition mouseMoves (evs : list PointerEvent) (u : Session) : Session :=
  fold_left (fun u ev => handleGlobalMouseMove ev u) evs u.

(** [dragged] is called for each position of [ps], in order. *)
Definition draggedThrough (ps : list (Q * Q)) (d : ref) (u : Session) : Session :=
  fold_left (fun u p => dragged (fst p) (snd p) d u) ps u.

(** The node [n] with [fx] and [fy] replaced. *)
Definition with_fixed (n : Node) (fx fy : option Q) : Node :=
  mkNode (n_id n) (n_x n) (n_y n) fx fy (n_type n)
    (n_note n) (n_createdAt n) (n_parentId n) (n_children n).

(** ** Sessions as sequences of events *)

(** The events of the page that reach the handlers above, with what each
    handler reads from outside. *)
Inductive Event :=
| BackgroundClick (ev : PointerEvent) (now : jsstring)
| BackgroundRightClick (ev : PointerEvent) (now : jsstring)
| NodeClick (ev : PointerEvent) (d : ref)
| NodeRightClick (cosA sinA : Q) (now : jsstring) (d : ref)
| LinkClick (ev : PointerEvent) (d : Link) (now : jsstring)
| Wheel (ev : PointerEvent)
| Keydown (key : Key) (ctrl : bool)
| SaveNoteClick
| DeleteNodeClick
| CloseEditorClick
| EditorChange (value : jsstring)
| TimerFires (id : nat)
| GraphLoaded (rnd : nat -> Q) (data : Payload).

Definition handle (e : Event) : M unit :=
  match e with
  | BackgroundClick ev now => handleBackgroundClick ev now
  | BackgroundRightClick ev now => handleBackgroundRightClick ev now
  | NodeClick ev d => handleNodeClick ev d
  | NodeRightClick cosA sinA now d => handleNodeRightClick cosA sinA now d
  | LinkClick ev d now => handleLinkClick ev d now
  | Wheel ev => handleWheel ev
  | Keydown key ctrl => handleKeydown key ctrl
  | SaveNoteClick => saveNoteClick
  | DeleteNodeClick => deleteNodeClick
  | CloseEditorClick => closeEditor
  | EditorChange value => editorChange value
  | TimerFires id => timerFires id
  | GraphLoaded rnd data => loadGraph rnd data
  end.

Definition payload_ids (data : Payload) : list Z :=
  match p_nodes data with
  | Some ws => map w_id ws
  | None => []
  end.

(** A body as [saveGraph] writes it for a graph with distinct node ids and
    no self-loop: the node ids are distinct, the links array is there and no
    link has the same source and target. *)
Definition payload_ok (data : Payload) : Prop :=
  NoDup (payload_ids data)
  /\ exists ls, p_links data = Some ls
                /\ Forall (fun l => w_source l <> w_target l) ls.

(** The events the page can deliver in a state: d3 calls a node's or a
    link's listener with the datum bound to the element, which is a member of
    [state.nodes] or [state.links]; the body of the graph arrives while no
    connection source is staged.  Every wheel event is let through to
    [handleWheel], also those that d3-zoom's own listener would stop: this
    only adds states to the sessions. *)
Definition enabled (s : State) (e : Event) : Prop :=
  match e with
  | NodeClick _ d => In d (nodes s)
  | NodeRightClick _ _ _ d => In d (nodes s)
  | LinkClick _ l _ => In l (links s)
  | GraphLoaded _ data => payload_ok data /\ connectionSourceNode s = None
  | _ => True
  end.

(** The states of a session: the page as loaded, and what the handlers make
    of it. *)
Inductive reachable : State -> Prop :=
| reach_page (w h : Q) : reachable (initialState w h)
| reach_step (s : State) (e : Event) :
    reachable s -> enabled s e -> reachable (exec (handle e) s).

(** A session within the safe integers: the node ids of a body that
    arrives are safe integers, and before every other event the id counter
    is a safe integer. *)
Definition safe_step (s : State) (e : Event) : Prop :=
  match e with
  | GraphLoaded _ data => Forall safe_integer (payload_ids data)
  | _ => safe_integer (nextId s)
  end.

Inductive reachable_safe : State -> Prop :=
| safe_page (w h : Q) : reachable_safe (initialState w h)
| safe_next (s : State) (e : Event) :
    reachable_safe s -> enabled s e -> safe_step s e ->
    reachable_safe (exec (handle e) s).

(** A link joins two different members of [state.nodes], and its id is the
    pair of their ids. *)
Definition link_ok (s : State) (l : Link) : Prop :=
  exists a b,
    l_source l = EObj a /\ l_target l = EObj b
    /\ In a (nodes s) /\ In b (nodes s)
    /\ a <> b
    /\ l_id l = (Some (n_id (heap s a)), Some (n_id (heap s b))).

(** What every state of a session satisfies. *)
Record graph_inv (s : State) : Prop := mkGraphInv {
  inv_allocated : forall r, In r (nodes s) -> (r < nextRef s)%nat;
  inv_source : forall r, connectionSourceNode s = Some r -> In r (nodes s);
  inv_links : forall l, In l (links s) -> link_ok s l
}.

(** The ids of the nodes are pairwise different and below the id counter:
    what the states of a session within the safe integers satisfy as well. *)
Record fresh_ids (s : State) : Prop := mkFreshIds {
  ids_unique : NoDup (node_ids s);
  ids_below : forall r, In r (nodes s) -> (n_id (heap s r) < nextId s)%Z
}.

(** A step from [s] to [s'] keeps both; it keeps the second while the id
    counter is a safe integer. *)
Definition keeps (s s' : State) : Prop :=
  graph_inv s' /\ (fresh_ids s -> fresh_ids s').

Definition keeps_while_safe (s s' : State) : Prop :=
  graph_inv s' /\ (fresh_ids s -> safe_integer (nextId s) -> fresh_ids s').

(** ** Viewport, as a specification *)

(** Where the transform puts a world point on the screen: d3's
    [transform.apply], relative to the svg's rectangle. *)
Definition worldToScreen (t : Transform) (p : Q * Q) : Q * Q :=
  (fst p * t_k t + t_x t, snd p * t_k t + t_y t).

(** The pointer's position relative to the svg's rectangle. *)
Definition pointer (ev : PointerEvent) : Q * Q :=
  (clientX ev - rect_left ev, clientY ev - rect_top ev).

(** A transform that scales about the screen point [p]: the world point
    under [p] is [p] itself. *)
Definition scales_about (p : Q * Q) (t : Transform) : Prop :=
  ~ t_k t == 0
  /\ t_x t == fst p * (1 - t_k t)
  /\ t_y t == snd p * (1 - t_k t).

(** ** Timers, as a specification *)

(** The pending timers once [clearTimeout(id)] has run. *)
Definition pending_without (id : option nat) (pending : list nat) : list nat :=
  match id with
  | Some i => filter (fun j => negb (Nat.eqb j i)) pending
  | None => pending
  end.

(** At most one timer is pending, the one the debounce closure holds, and
    its id has been handed out. *)
Definition debounce_inv (s : State) : Prop :=
  (timers s = [] \/ exists id, timeout s = Some id /\ timers s = [id])
  /\ (forall id, timeout s = Some id -> (id < nextTimer s)%nat).

(** The timer queue, the closure's variable and the id counter are the same
    in both states. *)
Definition same_timers (s s' : State) : Prop :=
  timers s' = timers s /\ timeout s' = timeout s /\ nextTimer s' = nextTimer s.

(** A computation that leaves the timers alone, however it ends. *)
Definition keeps_timers {A} (c : M A) : Prop :=
  forall s, same_timers s (snd (c s)).

(** ** Saving and loading, as a specification *)

(** A graph that [loadGraph] rebuilds as it was saved: there is a node, no
    coordinate and no [parentId] is 0 (which [||] would replace), and the
    endpoints of the links are objects whose ids are ids of nodes. *)
Definition saveable (s : State) : Prop :=
  nodes s <> []
  /\ (forall r, In r (nodes s) ->
        Qeq_bool (n_x (heap s r)) 0 = false
        /\ Qeq_bool (n_y (heap s r)) 0 = false
        /\ n_parentId (heap s r) <> Some 0%Z)
  /\ (forall l, In l (links s) ->
        resolves_in (node_ids s) (endpoint_id s (l_source l)) = true
        /\ resolves_in (node_ids s) (endpoint_id s (l_target l)) = true).

(** ** A session *)

(** Every event of the list is enabled in the state it meets. *)
Fixpoint all_enabled (evs : list Event) (s : State) : Prop :=
  match evs with
  | [] => True
  | e :: evs' => enabled s e /\ all_enabled evs' (exec (handle e) s)
  end.

(** Every event of the list is a safe step in the state it meets. *)
Fixpoint all_safe (evs : list Event) (s : State) : Prop :=
  match evs with
  | [] => True
  | e :: evs' => safe_step s e /\ all_safe evs' (exec (handle e) s)
  end.

Definition run_session (evs : list Event) (s : State) : State :=
  run_events (map handle evs) s.

(** Two roots are created and joined, the link is split, a child is spawned
    from the breaker node, the first root is opened and its note edited, and
    the note is saved by the debounce timer. *)
Definition tour : list Event :=
  [BackgroundClick (ctrlClickAt 100 100) [];
   BackgroundClick (ctrlClickAt 300 100) [];
   NodeClick (ctrlClickAt 100 100) 0%nat;
   NodeClick (ctrlClickAt 300 100) 1%nat;
   LinkClick (ctrlClickAt 200 100) link12 [];
   NodeRightClick 0 1 [] 2%nat;
   NodeClick (clickAt 100 100) 0%nat;
   EditorChange [72%N; 105%N];
   Wheel (wheelAsideAt 100 100);
   TimerFires 1%nat;
   Keydown KeyEscape false].

Definition afterTour : State := run_session tour page.

(** A body with a node of id 2^53 arrives on the fresh page, and a
    right-click on that node spawns a child. *)
Definition beyondSafe : list Event :=
  [GraphLoaded (fun _ => 0) bodyAtTwo53; NodeRightClick 1 0 [] 0%nat].

Definition idReused : State := run_session beyondSafe page.
(** * Properties *)

(** ** Running the monad *)

(** The head [bind] of the computation is run on the state at hand. *)
Ltac step_get := unfold bind at 1; unfold get at 1; cbv beta iota.
Ltac step_ret := unfold bind at 1; unfold ret at 1; cbv beta iota.

(** ** Numbers *)

Lemma double_of_Z_exact (z : Z) : (- two53 <= z <= two53)%Z -> double_of_Z z = z.
Proof.
  intros H. unfold double_of_Z.
  destruct (Z.ltb_spec (Z.abs z) two53) as [_|Hge]; [reflexivity|].
  assert (E : z = two53 \/ z = (- two53)%Z) by lia.
  destruct E as [-> | ->]; reflexivity.
Qed.

(** On a safe integer, adding 1 is exact. *)
Lemma number_add_safe (z : Z) : safe_integer z -> number_add z 1 = (z + 1)%Z.
Proof.
  unfold safe_integer, number_add. intros H. apply double_of_Z_exact. lia.
Qed.

(** At 2^53 adding 1 changes nothing: 2^53 + 1 is no double, and of its two
    neighbours 2^53 has the even significand. *)
Lemma number_add_two53 : number_add two53 1 = two53.
Proof. reflexivity. Qed.

(** ** The heap *)

Lemma store_all_below (ns : list Node) :
  forall r h r', (r' < r)%nat -> store_all r ns h r' = h r'.
Proof.
  induction ns as [|n ns IH]; intros r h r' Hlt; simpl.
  - reflexivity.
  - rewrite IH by lia. unfold store.
    destruct (Nat.eqb_spec r' r); [lia | reflexivity].
Qed.

Lemma store_all_seq (ns : list Node) :
  forall r h, map (store_all r ns h) (seq r (length ns)) = ns.
Proof.
  induction ns as [|n ns IH]; intros r h; simpl.
  - reflexivity.
  - rewrite IH. rewrite store_all_below by lia.
    unfold store. rewrite Nat.eqb_refl. reflexivity.
Qed.

Section Loading.

(** The values [Math.random()] returns during the load. *)
Variable rnd : nat -> Q.

Lemma nodes_of_wire_length s (ws : list WireNode) :
  forall i, length (nodes_of_wire rnd s i ws) = length ws.
Proof. induction ws as [|w ws IH]; intros i; simpl; [reflexivity | now rewrite IH]. Qed.

Lemma nodes_of_wire_ids s (ws : list WireNode) :
  forall i, map n_id (nodes_of_wire rnd s i ws) = map w_id ws.
Proof. induction ws as [|w ws IH]; intros i; simpl; [reflexivity | now rewrite IH]. Qed.

Lemma nodes_of_wire_frame s s' (ws : list WireNode) :
  width s' = width s -> height s' = height s ->
  forall i, nodes_of_wire rnd s' i ws = nodes_of_wire rnd s i ws.
Proof.
  intros Hw Hh. induction ws as [|w ws IH]; intros i; simpl; [reflexivity|].
  rewrite IH. unfold node_of_wire. rewrite Hw, Hh. reflexivity.
Qed.

Lemma load_nodes_run (ws : list WireNode) :
  forall i s,
    load_nodes rnd i ws s =
    (Normal (seq (nextRef s) (length ws)),
     set_nextRef (nextRef s + length ws)%nat
       (set_heap (store_all (nextRef s) (nodes_of_wire rnd s i ws) (heap s)) s)).
Proof.
  induction ws as [|w ws IH]; intros i s.
  - simpl. unfold ret. destruct s; unfold set_nextRef, set_heap; simpl.
    rewrite Nat.add_0_r. reflexivity.
  - cbn [load_nodes]. unfold bind at 1. unfold get at 1.
    unfold bind at 1. unfold new_object at 1. unfold bind, get, modify, ret at 1.
    cbn [fst snd]. rewrite IH. cbn [length nodes_of_wire store_all seq].
    rewrite (@nodes_of_wire_frame s _ ws) by reflexivity.
    unfold ret. simpl. f_equal. unfold set_nextRef, set_heap; simpl.
    f_equal. lia.
Qed.

(** ** Loading a persisted graph *)

Lemma find_node_some p s r :
  find_node p s = Some r -> In r (nodes s) /\ p (heap s r) = true.
Proof. unfold find_node. intros H. apply find_some in H. exact H. Qed.

Lemma find_by_wire_id_some s v r :
  find_by_wire_id v s = Some r -> In r (nodes s) /\ v = Some (n_id (heap s r)).
Proof.
  destruct v as [i|]; simpl; [|discriminate].
  intros H. apply find_node_some in H. destruct H as [Hin Heq].
  apply Z.eqb_eq in Heq. split; [exact Hin | now rewrite Heq].
Qed.

Lemma find_by_wire_id_resolves s v :
  is_some (find_by_wire_id v s) = resolves_in (node_ids s) v.
Proof.
  destruct v as [i|]; simpl; [|reflexivity].
  unfold find_node, node_ids.
  induction (nodes s) as [|r rs IH]; simpl; [reflexivity|].
  rewrite (Z.eqb_sym i). destruct (n_id (heap s r) =? i)%Z; simpl; [reflexivity | exact IH].
Qed.

Lemma keep_resolved_wire s (ls : list WireLink) :
  map (wire_of_link s) (keep_resolved (map (loaded_of_wire s) ls)) =
  map normal_link
    (filter (fun l => resolves_in (node_ids s) (w_source l)
                      && resolves_in (node_ids s) (w_target l)) ls).
Proof.
  induction ls as [|l ls IH]; simpl; [reflexivity|].
  rewrite <- !find_by_wire_id_resolves.
  destruct (find_by_wire_id (w_source l) s) as [a|] eqn:Ha; simpl; [|exact IH].
  destruct (find_by_wire_id (w_target l) s) as [b|] eqn:Hb; simpl; [|exact IH].
  rewrite IH. f_equal.
  apply find_by_wire_id_some in Ha. apply find_by_wire_id_some in Hb.
  destruct Ha as [_ Ha], Hb as [_ Hb].
  unfold wire_of_link, normal_link; simpl. now rewrite Ha, Hb.
Qed.

Lemma keep_resolved_endpoints s (ls : list WireLink) :
  Forall (fun l => exists a b, l_source l = EObj a /\ l_target l = EObj b
                               /\ In a (nodes s) /\ In b (nodes s))
         (keep_resolved (map (loaded_of_wire s) ls)).
Proof.
  induction ls as [|l ls IH]; simpl; [constructor|].
  destruct (find_by_wire_id (w_source l) s) as [a|] eqn:Ha; [|exact IH].
  destruct (find_by_wire_id (w_target l) s) as [b|] eqn:Hb; [|exact IH].
  constructor; [|exact IH].
  apply find_by_wire_id_some in Ha. apply find_by_wire_id_some in Hb.
  exists a, b. simpl. tauto.
Qed.

Lemma Math_max_ge (zs : list Z) :
  forall z, (z <= Math_max z zs)%Z /\ (forall x, In x zs -> (x <= Math_max z zs)%Z).
Proof.
  unfold Math_max. induction zs as [|y zs IH]; intros z; simpl.
  - split; [lia | tauto].
  - destruct (IH (Z.max z y)) as [H1 H2]. split; [lia|].
    intros x [Hx|Hx]; [subst; lia | auto].
Qed.

Lemma Math_max_in (zs : list Z) : forall z, In (Math_max z zs) (z :: zs).
Proof.
  unfold Math_max. induction zs as [|y zs IH]; intros z; simpl.
  - now left.
  - destruct (IH (Z.max z y)) as [H|H].
    + rewrite <- H. destruct (Z.max_spec z y) as [[_ E]|[_ E]]; rewrite E; auto.
    + auto.
Qed.

Lemma loadGraph_onData_run s w ws ls :
  loadGraph_onData rnd (mkPayload (Some (w :: ws)) (Some ls)) s
  = (Normal tt, loaded rnd s w ws ls).
Proof.
  unfold loaded. set (s1 := set_nodes _ _).
  unfold loadGraph_onData. cbn [p_nodes p_links].
  unfold bind at 1. rewrite load_nodes_run.
  unfold bind, modify, restart. cbn [fst snd length]. fold s1.
  assert (Hids : node_ids s1 = map w_id (w :: ws)).
  { unfold node_ids, s1. cbn [nodes heap set_nodes set_nextRef set_heap].
    rewrite <- (map_map (store_all _ _ _) n_id).
    rewrite <- (nodes_of_wire_length s (w :: ws) 0) at 1.
    rewrite store_all_seq. apply nodes_of_wire_ids. }
  unfold node_ids in Hids. cbn [map] in Hids.
  clearbody s1.
  cbn [nodes heap set_links]. rewrite Hids. reflexivity.
Qed.

Lemma loadGraph_run s w ws ls :
  loadGraph rnd (mkPayload (Some (w :: ws)) (Some ls)) s = (Normal tt, loaded rnd s w ws ls).
Proof. unfold loadGraph, catch_log. now rewrite loadGraph_onData_run. Qed.

(** C10: when the body's nodes array is absent or empty, [loadGraph] leaves
    the whole state as it was, so the node set, the link set and the next-id
    counter keep their values, whatever links the body carries. *)
Theorem loadGraph_without_nodes_keeps_state data s :
  p_nodes data = None \/ p_nodes data = Some [] ->
  loadGraph rnd data s = (Normal tt, s)
  /\ nodes (exec (loadGraph rnd data) s) = nodes s
  /\ links (exec (loadGraph rnd data) s) = links s
  /\ nextId (exec (loadGraph rnd data) s) = nextId s.
Proof.
  intros H.
  assert (E : loadGraph rnd data s = (Normal tt, s)).
  { unfold loadGraph, catch_log, loadGraph_onData.
    destruct H as [H|H]; rewrite H; reflexivity. }
  unfold exec. rewrite E. auto.
Qed.

(** C5 (amended): for a body with nodes [w :: ws] and links [ls],
    [loadGraph] raises no error; the loaded nodes are the objects built from
    the body's nodes, whatever the links are; the links kept are, in order,
    exactly those whose source and target ids are both carried by a loaded
    node, with endpoints among the loaded nodes; and the next-id counter is
    the sum, as the code's double arithmetic gives it, of the greatest loaded
    id and 1.  When all loaded ids are safe integers that sum is exact, so
    the counter is the greatest loaded id plus one and above every loaded id.
    When the body's node array is empty or absent the counter is not touched,
    so on the freshly loaded page it is still 1. *)
Theorem loadGraph_reconciles s w ws ls :
  let data := mkPayload (Some (w :: ws)) (Some ls) in
  let s' := exec (loadGraph rnd data) s in
  (result (loadGraph_onData rnd data) s = Normal tt
   /\ result (loadGraph rnd data) s = Normal tt
   /\ map (heap s') (nodes s') = nodes_of_wire rnd s 0 (w :: ws)
   /\ map (wire_of_link s') (links s') =
      map normal_link
        (filter (fun l => resolves_in (map w_id (w :: ws)) (w_source l)
                          && resolves_in (map w_id (w :: ws)) (w_target l)) ls)
   /\ Forall (fun l => exists a b, l_source l = EObj a /\ l_target l = EObj b
                                   /\ In a (nodes s') /\ In b (nodes s'))
             (links s')
   /\ (exists n, In n (w :: ws)
                 /\ (forall m, In m (w :: ws) -> (w_id m <= w_id n)%Z)
                 /\ nextId s' = number_add (w_id n) 1)
   /\ (Forall (fun n => safe_integer (w_id n)) (w :: ws) ->
       (forall n, In n (w :: ws) -> (w_id n < nextId s')%Z)
       /\ (exists n, In n (w :: ws) /\ nextId s' = (w_id n + 1)%Z)))
  /\ (forall ls0 wd ht,
        nextId (exec (loadGraph rnd (mkPayload (Some []) ls0)) s) = nextId s
        /\ nextId (exec (loadGraph rnd (mkPayload None ls0)) s) = nextId s
        /\ nextId (exec (loadGraph rnd (mkPayload (Some []) ls0)) (initialState wd ht)) = 1%Z).
Proof.
  intros data s'. split.
  - pose proof (loadGraph_run s w ws ls) as Hrun.
    pose proof (loadGraph_onData_run s w ws ls) as Hdata.
    unfold loaded in Hrun, Hdata. cbv zeta in Hrun, Hdata.
    set (s1 := set_nodes _ _) in Hrun, Hdata.
    assert (Hheap : map (heap s1) (nodes s1) = nodes_of_wire rnd s 0 (w :: ws)).
    { unfold s1. cbn [nodes heap set_nodes set_nextRef set_heap].
      rewrite <- (nodes_of_wire_length s (w :: ws) 0) at 1.
      apply store_all_seq. }
    assert (Hids : node_ids s1 = map w_id (w :: ws)).
    { unfold node_ids. rewrite <- (map_map (heap s1) n_id), Hheap.
      apply nodes_of_wire_ids. }
    unfold s', result, exec, data. rewrite Hrun, Hdata. cbn [fst snd].
    clearbody s1.
    split; [reflexivity|]. split; [reflexivity|].
    split; [exact Hheap|].
    split.
    { cbn [links set_alpha set_nextId set_links].
      rewrite <- Hids. apply (keep_resolved_wire s1 ls). }
    split.
    { cbn [links nodes set_alpha set_nextId set_links].
      apply keep_resolved_endpoints. }
    cbn [nextId set_alpha set_nextId].
    destruct (Math_max_ge (map w_id ws) (w_id w)) as [Hw Hws].
    assert (Hmax : exists n, In n (w :: ws)
                             /\ w_id n = Math_max (w_id w) (map w_id ws)).
    { destruct (Math_max_in (map w_id ws) (w_id w)) as [Hm|Hm].
      - exists w. split; [now left | exact Hm].
      - apply in_map_iff in Hm. destruct Hm as [n [Hn Hin]].
        exists n. split; [now right | exact Hn]. }
    assert (Hle : forall m, In m (w :: ws) ->
                            (w_id m <= Math_max (w_id w) (map w_id ws))%Z).
    { intros m [Hm|Hm]; [subst m; exact Hw | apply Hws, in_map, Hm]. }
    destruct Hmax as (n & Hn & En).
    split.
    + exists n. split; [exact Hn|]. split; [|now rewrite En].
      intros m Hm. rewrite En. now apply Hle.
    + intros Hsafe.
      assert (Hsn : safe_integer (w_id n)).
      { rewrite Forall_forall in Hsafe. now apply Hsafe. }
      rewrite <- En, (number_add_safe Hsn). split.
      * intros m Hm. pose proof (Hle m Hm). lia.
      * exists n. split; [exact Hn | reflexivity].
  - intros ls0 wd ht. repeat split; reflexivity.
Qed.

End Loading.

Lemma loadGraph_without_nodes_keeps_state_witness :
  loadGraph (fun _ => 0) bodyWithoutNodes oneRoot = (Normal tt, oneRoot)
  /\ nodes (exec (loadGraph (fun _ => 0) bodyWithoutNodes) oneRoot) = nodes oneRoot
  /\ links (exec (loadGraph (fun _ => 0) bodyWithoutNodes) oneRoot) = links oneRoot
  /\ nextId (exec (loadGraph (fun _ => 0) bodyWithoutNodes) oneRoot) = nextId oneRoot.
Proof.
  apply (@loadGraph_without_nodes_keeps_state (fun _ => 0) bodyWithoutNodes oneRoot).
  right. reflexivity.
Defined.

Lemma loadGraph_reconciles_witness :
  links (exec (loadGraph (fun _ => 0) bodyWithDanglingLinks) page)
  = [mkLink (EObj 0%nat) (EObj 1%nat) (Some 4%Z, Some 7%Z) false]
  /\ nextId (exec (loadGraph (fun _ => 0) bodyWithDanglingLinks) page) = 8%Z
  /\ map (wire_of_link (exec (loadGraph (fun _ => 0) bodyWithDanglingLinks) page))
         (links (exec (loadGraph (fun _ => 0) bodyWithDanglingLinks) page))
     = [mkWireLink (Some 4%Z) (Some 7%Z) (Some false)]
  /\ (forall n,
        In n [mkWireNode 4 root [65%N] (Some 10) (Some 20) [] None (Some [7%Z]);
              mkWireNode 7 child [66%N] (Some 30) (Some 40) [] (Some 4%Z) None] ->
        (w_id n < nextId (exec (loadGraph (fun _ => 0%Q) bodyWithDanglingLinks) page))%Z).
Proof.
  pose proof (proj1
    (@loadGraph_reconciles (fun _ => 0) page
       (mkWireNode 4 root [65%N] (Some 10) (Some 20) [] None (Some [7%Z]))
       [mkWireNode 7 child [66%N] (Some 30) (Some 40) [] (Some 4%Z) None]
       [mkWireLink (Some 4%Z) (Some 7%Z) None;
        mkWireLink (Some 4%Z) (Some 9%Z) (Some true);
        mkWireLink None (Some 7%Z) None])) as (_ & _ & _ & Hlinks & _ & _ & Hsafe).
  split; [reflexivity|]. split; [reflexivity|]. split; [exact Hlinks|].
  apply Hsafe. repeat constructor; vm_compute; split; reflexivity.
Defined.

(** C5, the claim as it stands fails at the edge of the safe integers: for a
    body whose node has the id 2^53 the counter is set to 2^53, the greatest
    loaded id itself and not that id plus one, so the loaded id is not below
    the counter; the counter then stays, and the next two nodes created both
    get the id 2^53 of the loaded node. *)
Lemma loadGraph_at_two53_counter_is_greatest_id :
  loadGraph (fun _ => 0) bodyAtTwo53 page = (Normal tt, loadedAtTwo53)
  /\ node_ids loadedAtTwo53 = [two53]
  /\ nextId loadedAtTwo53 = two53
  /\ nextId loadedAtTwo53 <> (two53 + 1)%Z
  /\ ~ (forall i, In i (node_ids loadedAtTwo53) -> (i < nextId loadedAtTwo53)%Z)
  /\ node_ids (run_events [handleBackgroundClick (ctrlClickAt 100 100) [];
                           handleBackgroundClick (ctrlClickAt 300 100) []] loadedAtTwo53)
     = [two53; two53; two53].
Proof.
  split; [reflexivity|]. split; [reflexivity|]. split; [reflexivity|].
  split; [vm_compute; discriminate|]. split; [|reflexivity].
  intros H. specialize (H two53 (or_introl eq_refl)).
  vm_compute in H. discriminate.
Qed.

(** ** Repulsion and the number of links *)

Lemma Qdiv5 (q : Q) : q / 5 == q * (1 # 5).
Proof. unfold Qdiv. reflexivity. Qed.

Lemma count_nonneg (n : nat) : 0 <= inject_Z (Z.of_nat n).
Proof. change 0 with (inject_Z 0). rewrite <- Zle_Qle. lia. Qed.

Lemma count_le (n m : nat) : (n <= m)%nat -> inject_Z (Z.of_nat n) <= inject_Z (Z.of_nat m).
Proof. intros H. rewrite <- Zle_Qle. lia. Qed.

Lemma count_succ (n : nat) : inject_Z (Z.of_nat (S n)) == inject_Z (Z.of_nat n) + 1.
Proof. rewrite Nat2Z.inj_succ, <- Z.add_1_r, inject_Z_plus. reflexivity. Qed.

Lemma chargeFor_low (n : nat) :
  (n <= 10)%nat -> chargeFor n == -100 * inject_Z (Z.of_nat n).
Proof.
  intros H. unfold chargeFor, CONFIG.chargeStrength.
  pose proof (count_le H) as Hq. change (inject_Z (Z.of_nat 10)) with 10 in Hq.
  rewrite Q.min_l.
  - rewrite Qdiv5. lra.
  - rewrite Qdiv5. lra.
Qed.

Lemma chargeFor_high (n : nat) : (10 <= n)%nat -> chargeFor n == -1000.
Proof.
  intros H. unfold chargeFor, CONFIG.chargeStrength.
  pose proof (count_le H) as Hq. change (inject_Z (Z.of_nat 10)) with 10 in Hq.
  rewrite Q.min_r.
  - lra.
  - rewrite Qdiv5. lra.
Qed.

Lemma chargeFor_magnitude (n : nat) :
  Qabs (chargeFor n) == - chargeFor n /\ 0 <= - chargeFor n <= 1000.
Proof.
  pose proof (count_nonneg n) as H0.
  destruct (Nat.le_gt_cases n 10) as [H|H].
  - pose proof (chargeFor_low H) as E.
    pose proof (count_le H) as Hq. change (inject_Z (Z.of_nat 10)) with 10 in Hq.
    split; [apply Qabs_neg|]; rewrite E; lra.
  - assert (H' : (10 <= n)%nat) by lia.
    pose proof (chargeFor_high H') as E.
    split; [apply Qabs_neg|]; rewrite E; lra.
Qed.

Lemma createLink_run src tgt b s :
  createLink src tgt b s =
  (Normal tt,
   set_alpha (1 # 2)
     (set_charge (chargeFor (S (length (links s))))
        (set_alpha 1
           (set_links (links s ++ [mkLink (EObj src) (EObj tgt)
                                     (Some (n_id (heap s src)), Some (n_id (heap s tgt))) b])
              s)))).
Proof.
  unfold createLink, restart, bind, get, modify. cbn [fst snd].
  cbn [links set_alpha set_links]. rewrite length_app, Nat.add_1_r. reflexivity.
Qed.

(** C8 (amended): after every link creation the charge strength is
    -500 * min(linkCount / 5, 2) for the new link count; its magnitude never
    exceeds twice the base strength and is exactly that from ten links on.
    The strength this formula gives never gets weaker with one more link, it
    gets stronger only while there are fewer than ten links, and from ten
    links on one more link leaves it as it is. *)
Theorem createLink_sets_charge src tgt b s :
  let s' := exec (createLink src tgt b) s in
  result (createLink src tgt b) s = Normal tt
  /\ length (links s') = S (length (links s))
  /\ charge s' = CONFIG.chargeStrength
                 * Qmin (inject_Z (Z.of_nat (length (links s'))) / 5) 2
  /\ Qabs (charge s') <= 2 * Qabs CONFIG.chargeStrength
  /\ ((10 <= length (links s'))%nat -> charge s' == 2 * CONFIG.chargeStrength)
  /\ (forall n : nat,
        Qabs (chargeFor n) <= Qabs (chargeFor (S n))
        /\ ((n < 10)%nat -> Qabs (chargeFor n) < Qabs (chargeFor (S n)))
        /\ ((10 <= n)%nat -> chargeFor (S n) == chargeFor n)).
Proof.
  intros s'. unfold s', result, exec. rewrite createLink_run. cbn [fst snd].
  cbn [links charge set_alpha set_charge set_links].
  rewrite length_app, Nat.add_1_r.
  split; [reflexivity|]. split; [reflexivity|]. split; [reflexivity|].
  fold (chargeFor (S (length (links s)))).
  split.
  { destruct (chargeFor_magnitude (S (length (links s)))) as [E B].
    rewrite E. change (2 * Qabs CONFIG.chargeStrength) with (2 * (500 # 1)). lra. }
  split.
  { intros H. rewrite (chargeFor_high H). reflexivity. }
  intros n.
  destruct (chargeFor_magnitude n) as [En _].
  destruct (chargeFor_magnitude (S n)) as [ESn _].
  pose proof (count_succ n) as Hs.
  split; [|split].
  - rewrite En, ESn.
    destruct (Nat.le_gt_cases 10 n) as [H|H].
    + rewrite (chargeFor_high H), (@chargeFor_high (S n)) by lia. lra.
    + rewrite (@chargeFor_low n), (@chargeFor_low (S n)) by lia. lra.
  - intros H. rewrite En, ESn.
    rewrite (@chargeFor_low n), (@chargeFor_low (S n)) by lia. lra.
  - intros H. rewrite (chargeFor_high H), (@chargeFor_high (S n)) by lia. reflexivity.
Qed.

Lemma createLink_sets_charge_witness :
  charge (exec (createLink 0%nat 1%nat false) tenLinks) == 2 * CONFIG.chargeStrength
  /\ Qabs (chargeFor 3) < Qabs (chargeFor 4)
  /\ chargeFor 11 == chargeFor 10.
Proof.
  pose proof (@createLink_sets_charge 0%nat 1%nat false tenLinks) as H.
  cbv zeta in H. destruct H as (_ & _ & _ & _ & Hcap & Hmono).
  split; [apply Hcap; vm_compute; lia|].
  split.
  - apply (proj1 (proj2 (Hmono 3%nat))). lia.
  - apply (proj2 (proj2 (Hmono 10%nat))). lia.
Defined.

(** C8, as stated, fails: with ten links in the graph the charge strength is
    -1000, and creating the eleventh link leaves it at -1000. *)
Lemma eleventh_link_does_not_increase_repulsion :
  length (links tenLinks) = 10%nat
  /\ length (links (run_events connectFirstToSecond tenLinks)) = 11%nat
  /\ ~ repulsion_increased tenLinks (run_events connectFirstToSecond tenLinks).
Proof.
  split; [reflexivity|]. split; [reflexivity|].
  unfold repulsion_increased. vm_compute. discriminate.
Qed.

(** ** Creating nodes and splitting links *)

Lemma createNode_run x y type parentId now s :
  createNode x y type parentId now s =
  (Normal (nextRef s),
   set_alpha 1
     (set_nodes (nodes s ++ [nextRef s])
        (set_nextId (number_add (nextId s) 1)
           (set_nextRef (S (nextRef s))
              (set_heap (store (nextRef s) (freshNode x y type parentId now s) (heap s))
                 s))))).
Proof. reflexivity. Qed.




Lemma store_other (r r' : ref) (n : Node) (h : ref -> Node) :
  r' <> r -> store r n h r' = h r'.
Proof. intros H. unfold store. destruct (Nat.eqb_spec r' r); [contradiction | reflexivity]. Qed.

Lemma store_same (r : ref) (n : Node) (h : ref -> Node) : store r n h r = n.
Proof. unfold store. now rewrite Nat.eqb_refl. Qed.

Lemma createBreakerOnLine_run linkData now s src tgt :
  resolveEndpoint (l_source linkData) s = Some src ->
  resolveEndpoint (l_target linkData) s = Some tgt ->
  let b := nextRef s in
  let s1 := set_links (filter (fun l => negb (LinkId_eqb (l_id l) (l_id linkData))) (links s)) s in
  let s2 := snd (createNode ((n_x (heap s src) + n_x (heap s tgt)) / 2)
                            ((n_y (heap s src) + n_y (heap s tgt)) / 2)
                            breaker None now s1) in
  let s3 := set_note b breakerNoteText s2 in
  createBreakerOnLine linkData now s =
  (Normal (Some b), snd (createLink b tgt true (snd (createLink src b true s3)))).
Proof.
  intros Hs Ht b s1 s2 s3.
  unfold createBreakerOnLine. unfold bind at 1. unfold get at 1.
  rewrite Hs, Ht.
  unfold bind at 1. unfold modify at 1. fold s1.
  unfold bind at 1. rewrite createNode_run.
  unfold bind at 1. unfold modify at 1.
  unfold bind at 1. rewrite createLink_run.
  unfold bind at 1. rewrite createLink_run.
  unfold ret. rewrite !createLink_run. reflexivity.
Qed.




(** ** Context of a node *)

Lemma str_truthy_trim (note : jsstring) :
  str_truthy note && str_truthy (trim note) = str_truthy (trim note).
Proof. destruct note; reflexivity. Qed.

Lemma substring_from_last (t : jsstring) (n : nat) :
  substring_from (length t - n) t = last_chars n t.
Proof.
  unfold substring_from, last_chars. rewrite firstn_rev, rev_involutive. reflexivity.
Qed.

(** One [push] of [getNodeContext], for the note of the object [r]. *)
Lemma push_entry (acc : list ContextPart) (lab : Label) (note : jsstring) :
  (if str_truthy note && str_truthy (trim note)
   then acc ++ [mkContextPart lab
                  (if (MAX_CHARS <? length (trim note))%nat
                   then dots ++ substring_from (length (trim note) - MAX_CHARS) (trim note)
                   else trim note)]
   else acc)
  = acc ++ match tail_excerpt note with
           | Some t => [mkContextPart lab t]
           | None => []
           end.
Proof.
  rewrite str_truthy_trim, substring_from_last. unfold tail_excerpt.
  destruct (trim note) as [|c t]; cbn [str_truthy].
  - now rewrite app_nil_r.
  - reflexivity.
Qed.

Lemma fold_pushes {A B} (g : B -> list A) (l : list B) :
  forall acc, fold_left (fun acc b => acc ++ g b) l acc = acc ++ flat_map g l.
Proof.
  induction l as [|b l IH]; intros acc; simpl.
  - now rewrite app_nil_r.
  - rewrite IH. now rewrite app_assoc.
Qed.

Lemma tail_excerpt_bound (note t : jsstring) :
  tail_excerpt note = Some t ->
  t <> [] /\ (length t <= MAX_CHARS + 3)%nat.
Proof.
  unfold tail_excerpt. destruct (trim note) as [|c u] eqn:E; [discriminate|].
  assert (Hv : c :: u <> []) by discriminate.
  remember (c :: u) as v eqn:Ev. clear Ev E.
  intros H. assert (Ht : t = if (MAX_CHARS <? length v)%nat
                            then dots ++ last_chars MAX_CHARS v else v)
    by (destruct v; cbv beta iota zeta in H; [congruence|]; injection H as H; symmetry; exact H).
  clear H. subst t.
  destruct (Nat.ltb_spec MAX_CHARS (length v)) as [L|L].
  - split; [unfold dots; cbn [app]; discriminate|].
    unfold last_chars. rewrite length_app, length_rev, length_firstn, length_rev.
    cbn [dots length]. lia.
  - split; [exact Hv | lia].
Qed.

Lemma fold_left_pointwise {A B} (f g : A -> B -> A) (l : list B) :
  (forall a b, f a b = g a b) -> forall a, fold_left f l a = fold_left g l a.
Proof.
  intros H. induction l as [|b l IH]; intros a; simpl; [reflexivity|].
  now rewrite H, IH.
Qed.

Lemma context_entry_bound mkLabel s i :
  Forall (fun p => text p <> [] /\ (length (text p) <= MAX_CHARS + 3)%nat)
         (context_entry tail_excerpt mkLabel s i).
Proof.
  unfold context_entry. destruct (find_node _ s) as [r|]; [|constructor].
  destruct (tail_excerpt (n_note (heap s r))) as [t|] eqn:E; [|constructor].
  constructor; [|constructor]. exact (tail_excerpt_bound _ E).
Qed.

(** C4 (amended): [getNodeContext] returns the parent's entry first, then
    the children's entries in the order of [children]; every entry carries the
    trimmed note, and a note longer than 400 code units is cut to its LAST 400
    code units behind an ellipsis, for a child just as for the parent; a node
    that is not found, or whose note is empty after trimming, gives no
    entry. *)
Theorem getNodeContext_tail_excerpts s node :
  getNodeContext s node = contextOf tail_excerpt s node
  /\ Forall (fun p => text p <> [] /\ (length (text p) <= MAX_CHARS + 3)%nat)
            (getNodeContext s node).
Proof.
  assert (E : getNodeContext s node = contextOf tail_excerpt s node).
  { assert (Hfold : forall acc,
      fold_left
        (fun contextParts childId =>
           match find_node (fun n => (n_id n =? childId)%Z) s with
           | Some childNode =>
               if str_truthy (n_note (heap s childNode))
                  && str_truthy (trim (n_note (heap s childNode)))
               then
                 contextParts ++
                 [mkContextPart (FromChild (n_id (heap s childNode)))
                    (if (MAX_CHARS <? length (trim (n_note (heap s childNode))))%nat
                     then dots ++ substring_from
                            (length (trim (n_note (heap s childNode))) - MAX_CHARS)
                            (trim (n_note (heap s childNode)))
                     else trim (n_note (heap s childNode)))]
               else contextParts
           | None => contextParts
           end)
        (n_children node) acc
      = acc ++ flat_map (context_entry tail_excerpt FromChild s) (n_children node)).
    { intros acc. rewrite <- fold_pushes. apply fold_left_pointwise.
      intros a c. unfold context_entry.
      destruct (find_node _ s) as [r|]; [|now rewrite app_nil_r].
      apply push_entry. }
    assert (Hchildren : forall acc,
      (if (0 <? length (n_children node))%nat
       then acc ++ flat_map (context_entry tail_excerpt FromChild s) (n_children node)
       else acc)
      = acc ++ flat_map (context_entry tail_excerpt FromChild s) (n_children node)).
    { intros acc. destruct (n_children node); cbn [length Nat.ltb Nat.leb flat_map].
      - now rewrite app_nil_r.
      - reflexivity. }
    unfold getNodeContext, contextOf. cbv zeta.
    rewrite Hfold, Hchildren. f_equal.
    destruct (truthy_id (n_parentId node)) as [pid|]; [|reflexivity].
    unfold context_entry. destruct (find_node _ s) as [r|]; [|reflexivity].
    apply (push_entry [] (FromParent (n_id (heap s r))) (n_note (heap s r))). }
  split; [exact E|].
  rewrite E. unfold contextOf. apply Forall_app. split.
  - destruct (truthy_id (n_parentId node)); [apply context_entry_bound | constructor].
  - induction (n_children node) as [|c cs IH]; cbn [flat_map]; [constructor|].
    apply Forall_app. split; [apply context_entry_bound | exact IH].
Qed.

(** C4, as stated, fails: for a child whose trimmed note has 401 code units
    (one A, then 400 B) the entry is the ellipsis followed by the LAST 400
    code units, not the first 400. *)
Lemma child_note_is_cut_at_its_end :
  map text (getNodeContext parentWithLongChild (heap parentWithLongChild 0%nat))
  = [dots ++ repeat 66%N 400]
  /\ map text (contextOf head_excerpt parentWithLongChild (heap parentWithLongChild 0%nat))
     = [65%N :: repeat 66%N 399]
  /\ getNodeContext parentWithLongChild (heap parentWithLongChild 0%nat)
     <> contextOf head_excerpt parentWithLongChild (heap parentWithLongChild 0%nat).
Proof.
  assert (E1 : map text (getNodeContext parentWithLongChild (heap parentWithLongChild 0%nat))
               = [dots ++ repeat 66%N 400]) by (vm_compute; reflexivity).
  assert (E2 : map text (contextOf head_excerpt parentWithLongChild
                           (heap parentWithLongChild 0%nat))
               = [65%N :: repeat 66%N 399]) by (vm_compute; reflexivity).
  split; [exact E1|]. split; [exact E2|].
  intros H. rewrite H, E2 in E1. discriminate E1.
Qed.

(** ** Parent/child bookkeeping *)

(** C1, at the failing input: on the page with one root node, which is
    consistent, a right-click on that node creates a child whose [parentId]
    is the root's id while the root's [children] stays empty, so the state is
    not consistent any more. *)
Theorem right_click_child_breaks_consistency :
  consistent oneRoot
  /\ nodes childSpawned = [0%nat; 1%nat]
  /\ n_id (heap childSpawned 0%nat) = 1%Z
  /\ n_parentId (heap childSpawned 1%nat) = Some 1%Z
  /\ n_children (heap childSpawned 0%nat) = []
  /\ ~ consistent childSpawned.
Proof.
  split.
  { split; intros r r' Hr Hr'.
    - destruct Hr as [<-|[]]. intros H. destruct H.
    - destruct Hr as [<-|[]]. destruct Hr' as [<-|[]]. discriminate. }
  split; [reflexivity|]. split; [reflexivity|]. split; [reflexivity|].
  split; [reflexivity|].
  intros [_ H].
  assert (H0 : In 0%nat (nodes childSpawned)) by (left; reflexivity).
  assert (H1 : In 1%nat (nodes childSpawned)) by (right; left; reflexivity).
  exact (H 0%nat 1%nat H0 H1 eq_refl).
Qed.

(** What [updateParentChildRelationships] would do for that child: both
    sides of the relation are written, and the state is consistent. *)
Lemma updateParentChildRelationships_restores_consistency :
  consistent (exec (updateParentChildRelationships (Some 0%nat) (Some 1%nat) true) childSpawned).
Proof.
  set (s := exec _ childSpawned).
  assert (Hn : nodes s = [0%nat; 1%nat]) by reflexivity.
  split; intros r r' Hr Hr'; rewrite Hn in Hr, Hr';
    destruct Hr as [<-|[<-|[]]]; destruct Hr' as [<-|[<-|[]]]; vm_compute;
    intuition congruence.
Qed.

(** ** Deleting the selected node *)

Lemma findM_throws (e : JsError) (rs : list ref) (s : State) :
  rs <> [] -> findM (fun _ => throw e) rs s = (Throw e, s).
Proof. destruct rs as [|r rs]; [congruence | reflexivity]. Qed.

(** C2, on the code: with a node selected and a non-empty node set,
    [deleteSelectedNode] throws before it has changed anything, a TypeError
    when called from the Delete key and a ReferenceError when called from the
    delete button; so the selected node, its links and the parent and child
    fields all stay as they were. *)
Theorem deleteSelectedNode_throws_and_changes_nothing s sel :
  selectedNode s = Some sel ->
  nodes s <> [] ->
  handleKeydown KeyDelete false s = (Throw TypeError, s)
  /\ deleteNodeClick s = (Throw ReferenceError, s).
Proof.
  intros Hsel Hnodes. split.
  - unfold handleKeydown, bind, ret, get. cbn [andb]. rewrite Hsel.
    unfold deleteSelectedNode, bind, get. cbv beta iota. rewrite Hsel. reflexivity.
  - unfold deleteNodeClick, deleteSelectedNode. step_get. rewrite Hsel. step_ret.
    unfold bind at 1. rewrite (findM_throws ReferenceError s Hnodes). reflexivity.
Qed.

Lemma deleteSelectedNode_throws_and_changes_nothing_witness :
  nodes childSelected = [0%nat; 1%nat]
  /\ selectedNode childSelected = Some 1%nat
  /\ handleKeydown KeyDelete false childSelected = (Throw TypeError, childSelected)
  /\ deleteNodeClick childSelected = (Throw ReferenceError, childSelected)
  /\ In 1%nat (nodes (exec (handleKeydown KeyDelete false) childSelected))
  /\ length (links (exec (handleKeydown KeyDelete false) childSelected)) = 1%nat.
Proof.
  assert (Hsel : selectedNode childSelected = Some 1%nat) by reflexivity.
  assert (Hnodes : nodes childSelected <> []) by discriminate.
  destruct (deleteSelectedNode_throws_and_changes_nothing childSelected Hsel Hnodes)
    as [Hkey Hbutton].
  split; [reflexivity|]. split; [exact Hsel|]. split; [exact Hkey|].
  split; [exact Hbutton|].
  unfold exec. rewrite Hkey. split; [right; left; reflexivity | reflexivity].
Defined.

(** ** Wheel zoom *)

Lemma translate_scale (t : Transform) (x y : Q) : t_k (translate t x y) = t_k t.
Proof. unfold translate. destruct (Qeq_bool x 0 && Qeq_bool y 0); reflexivity. Qed.

Lemma scale_scale (t : Transform) (k : Q) : t_k (scale t k) == t_k t * k.
Proof.
  unfold scale. destruct (Qeq_bool k 1) eqn:E; cbn [t_k]; [|reflexivity].
  apply Qeq_bool_iff in E. rewrite E. ring.
Qed.

(** C7, on the code: the transform [handleWheel] sets has the current scale
    multiplied by the clamped scale, not the clamped scale.  So at the
    largest scale 5, which is in range, a wheel step towards zoom-in gives
    the scale 25, whatever the translation and the pointer's position are,
    and at the smallest scale 0.1 a wheel step towards zoom-out gives 0.01;
    and from the page as loaded, five sideways wheel events give the scale
    1.1^31, about 19.19.  These are wheel events that d3-zoom's own listener
    leaves to [handleWheel]. *)
Theorem wheel_scale_compounds :
  (forall ev t, t_k (wheelTransform ev t) == t_k t * clampedScale ev t)
  /\ (forall ev t, t_k t == CONFIG.zoomMax -> ~ 0 < deltaY ev ->
        t_k (wheelTransform ev t) == 25)
  /\ (forall ev t, t_k t == CONFIG.zoomMin -> 0 < deltaY ev ->
        t_k (wheelTransform ev t) == 1 # 100)
  /\ (scale_in_range zoomedToMax
      /\ currentZoom wheelUpAtMax == 25
      /\ t_k (currentTransform wheelUpAtMax) == 25
      /\ ~ scale_in_range wheelUpAtMax)
  /\ (scale_in_range page
      /\ CONFIG.zoomMax < currentZoom fiveWheelsAside
      /\ CONFIG.zoomMax < t_k (currentTransform fiveWheelsAside)
      /\ ~ scale_in_range fiveWheelsAside).
Proof.
  assert (Hk : forall ev t, t_k (wheelTransform ev t) == t_k t * clampedScale ev t).
  { intros ev t. unfold wheelTransform. rewrite scale_scale, translate_scale.
    reflexivity. }
  split; [exact Hk|].
  split.
  { intros ev t Et Hd. rewrite Hk. unfold clampedScale, Qgt_bool.
    destruct (Qle_bool (deltaY ev) 0) eqn:E.
    - cbn [negb]. rewrite Et. reflexivity.
    - exfalso. apply Hd. apply Qnot_le_lt. intros Hle.
      apply Qle_bool_iff in Hle. congruence. }
  split.
  { intros ev t Et Hd. rewrite Hk. unfold clampedScale, Qgt_bool.
    destruct (Qle_bool (deltaY ev) 0) eqn:E.
    - exfalso. apply Qle_bool_iff in E. exact (Qlt_not_le _ _ Hd E).
    - cbn [negb]. rewrite Et. reflexivity. }
  split.
  { split; [unfold scale_in_range; vm_compute; intuition discriminate|].
    split; [vm_compute; reflexivity|]. split; [vm_compute; reflexivity|].
    intros [[_ Hle] _]. vm_compute in Hle. apply Hle. reflexivity. }
  split; [unfold scale_in_range; vm_compute; intuition discriminate|].
  assert (H : CONFIG.zoomMax < currentZoom fiveWheelsAside) by (vm_compute; reflexivity).
  split; [exact H|]. split; [vm_compute; reflexivity|].
  intros [[_ Hle] _]. exact (Qlt_not_le _ _ H Hle).
Qed.

Lemma wheel_scale_compounds_witness :
  t_k (wheelTransform (wheelUpAt 100 100) (mkTransform 5 20 30)) == 25
  /\ t_k (wheelTransform (mkPointerEvent 100 100 0 0 100 false true)
             (mkTransform (1 # 10) 20 30)) == 1 # 100.
Proof.
  destruct wheel_scale_compounds as (_ & Hmax & Hmin & _).
  split.
  - apply Hmax; [reflexivity | vm_compute; discriminate].
  - apply Hmin; reflexivity.
Defined.

(** C6, on the code.  On the page panned by (50, 0), a sideways wheel event
    at the screen point (100, 0) moves the world point under the pointer from
    50 to 50/11.  At the largest scale 5 a wheel step towards zoom-in has the
    clamped scale 5, the scale the view already has, and yet the transform
    goes from (5, 20, 30) to (25, 120, 180). *)
Theorem wheel_zoom_moves_anchor_and_is_not_idempotent :
  let ev := wheelAsideAt 100 0 in
  let ev' := wheelUpAt 100 100 in
  (same_point (screenToWorld (currentTransform panned) ev) (50, 0)
   /\ same_point (screenToWorld (currentTransform (exec (handleWheel ev) panned)) ev)
                 (50 # 11, 0)
   /\ ~ same_point (screenToWorld (currentTransform (exec (handleWheel ev) panned)) ev)
                   (screenToWorld (currentTransform panned) ev))
  /\ (clampedScale ev' (currentTransform zoomedToMax) == t_k (currentTransform zoomedToMax)
      /\ same_transform (currentTransform (exec (handleWheel ev') zoomedToMax))
                        (mkTransform 25 120 180)
      /\ ~ same_transform (currentTransform (exec (handleWheel ev') zoomedToMax))
                          (currentTransform zoomedToMax)).
Proof.
  intros ev ev'. split.
  - split; [split; vm_compute; reflexivity|].
    split; [split; vm_compute; reflexivity|].
    intros [H _]. vm_compute in H. discriminate H.
  - split; [vm_compute; reflexivity|].
    split; [repeat split; vm_compute; reflexivity|].
    intros [H _]. vm_compute in H. discriminate H.
Qed.

(** ** Saving and the debounced write *)



Lemma saveGraph_run s : saveGraph s = (Normal tt, set_posted (posted s ++ [graphData s]) s).
Proof. reflexivity. Qed.




(** * The states of a session *)

Unset Implicit Arguments.

(** ** What the graph operations keep *)

Lemma keeps_refl (s : State) : graph_inv s -> keeps s s.
Proof. intros H. split; [exact H | auto]. Qed.

Lemma keeps_trans (s s1 s2 : State) :
  keeps s s1 -> (graph_inv s1 -> keeps s1 s2) -> keeps s s2.
Proof.
  intros [H1 F1] H2. destruct (H2 H1) as [H3 F2]. split; [exact H3 | auto].
Qed.

Lemma keeps_safe_of_keeps (s s' : State) : keeps s s' -> keeps_while_safe s s'.
Proof. intros [H F]. split; [exact H | auto]. Qed.

(** A step that leaves the id counter alone, then one that may create a
    node, then one that leaves the ids alone. *)
Lemma keeps_then_safe (s s1 s2 : State) :
  keeps s s1 -> nextId s1 = nextId s ->
  (graph_inv s1 -> keeps_while_safe s1 s2) -> keeps_while_safe s s2.
Proof.
  intros [H1 F1] E H2. destruct (H2 H1) as [H3 F2]. split; [exact H3|].
  intros F Hs. apply F2; [auto | now rewrite E].
Qed.

Lemma safe_then_keeps (s s1 s2 : State) :
  keeps_while_safe s s1 -> (graph_inv s1 -> keeps s1 s2) -> keeps_while_safe s s2.
Proof.
  intros [H1 F1] H2. destruct (H2 H1) as [H3 F2]. split; [exact H3 | auto].
Qed.

Lemma link_ok_mono (s s' : State) (l : Link) :
  (forall r, In r (nodes s) -> In r (nodes s')) ->
  (forall r, In r (nodes s) -> n_id (heap s' r) = n_id (heap s r)) ->
  link_ok s l -> link_ok s' l.
Proof.
  intros Hin Hid (a & b & Ha & Hb & Hia & Hib & Hne & Hl).
  exists a, b. rewrite (Hid a Hia), (Hid b Hib). auto 10.
Qed.

(** A handler that leaves the node set, the link set, both counters and the
    ids of the objects alone, and stages no node from outside the node set,
    keeps the invariants. *)
Lemma inv_frame (s s' : State) :
  graph_inv s ->
  nodes s' = nodes s ->
  links s' = links s ->
  nextRef s' = nextRef s ->
  nextId s' = nextId s ->
  (forall r, n_id (heap s' r) = n_id (heap s r)) ->
  (forall r, connectionSourceNode s' = Some r -> In r (nodes s)) ->
  keeps s s'.
Proof.
  intros [Ha Hs Hl] En El Er Ei Eh Ec. split.
  - constructor.
    + intros r Hr. rewrite En in Hr. rewrite Er. auto.
    + intros r Hr. rewrite En. auto.
    + intros l Hin. rewrite El in Hin.
      apply link_ok_mono with (s := s); [rewrite En; auto | intros; apply Eh | auto].
  - intros [Hu Hb]. constructor.
    + unfold node_ids in *. rewrite En.
      rewrite (map_ext _ (fun r => n_id (heap s r))) by (intros; apply Eh). exact Hu.
    + intros r Hr. rewrite En in Hr. rewrite Eh, Ei. auto.
Qed.

Lemma node_ids_below_fresh (s : State) :
  fresh_ids s -> ~ In (nextId s) (node_ids s).
Proof.
  intros H Hin. unfold node_ids in Hin. apply in_map_iff in Hin.
  destruct Hin as (r & E & Hr). pose proof (ids_below H r Hr). lia.
Qed.

Lemma createNode_keeps_inv x y type parentId now s :
  graph_inv s -> keeps_while_safe s (exec (createNode x y type parentId now) s).
Proof.
  intros H. unfold exec. rewrite createNode_run. cbn [snd].
  assert (Hid : forall r, In r (nodes s) ->
            n_id (store (nextRef s) (freshNode x y type parentId now s) (heap s) r)
            = n_id (heap s r)).
  { intros r Hr. rewrite store_other; [reflexivity|].
    pose proof (inv_allocated H r Hr). lia. }
  split.
  - constructor; cbn [nodes links nextRef nextId heap connectionSourceNode
                      set_alpha set_nodes set_nextId set_nextRef set_heap].
    + intros r Hr. apply in_app_or in Hr. destruct Hr as [Hr|[<-|[]]]; [|lia].
      pose proof (inv_allocated H r Hr). lia.
    + intros r Hr. apply in_or_app. left. exact (inv_source H Hr).
    + intros l Hl. apply link_ok_mono with (s := s).
      * intros r Hr. cbn [nodes set_alpha set_nodes]. apply in_or_app. now left.
      * intros r Hr. cbn [heap set_alpha set_nodes set_nextId set_nextRef set_heap].
        now apply Hid.
      * exact (inv_links H l Hl).
  - intros F Hsafe.
    constructor; cbn [nodes links nextRef nextId heap connectionSourceNode
                      set_alpha set_nodes set_nextId set_nextRef set_heap].
    + unfold node_ids. cbn [nodes heap set_alpha set_nodes set_nextId set_nextRef set_heap].
      rewrite map_app. cbn [map]. rewrite store_same.
      rewrite (map_ext_in _ (fun r => n_id (heap s r))) by (intros; now apply Hid).
      apply NoDup_app.
      * exact (ids_unique F).
      * repeat constructor. intros [].
      * intros i Hi [<-|[]]. exact (node_ids_below_fresh s F Hi).
    + rewrite (number_add_safe Hsafe).
      intros r Hr. apply in_app_or in Hr. destruct Hr as [Hr|[<-|[]]].
      * rewrite (Hid r Hr). pose proof (ids_below F r Hr). lia.
      * rewrite store_same. cbn [n_id freshNode]. lia.
Qed.

Lemma createLink_fields src tgt b s :
  let s' := exec (createLink src tgt b) s in
  nodes s' = nodes s /\ heap s' = heap s /\ nextRef s' = nextRef s
  /\ nextId s' = nextId s /\ connectionSourceNode s' = connectionSourceNode s
  /\ links s' = links s ++ [mkLink (EObj src) (EObj tgt)
                              (Some (n_id (heap s src)), Some (n_id (heap s tgt))) b].
Proof. cbv zeta. unfold exec. rewrite createLink_run. cbn [snd]. repeat split. Qed.

Lemma createLink_keeps_inv src tgt b s :
  graph_inv s -> In src (nodes s) -> In tgt (nodes s) -> src <> tgt ->
  keeps s (exec (createLink src tgt b) s).
Proof.
  intros H Hs Ht Hne.
  destruct (createLink_fields src tgt b s) as (En & Eh & Er & Ei & Ec & El).
  split.
  - constructor.
    + rewrite En, Er. apply (inv_allocated H).
    + rewrite En, Ec. intros r Hr; exact (inv_source H Hr).
    + intros l Hl. rewrite El in Hl. apply in_app_or in Hl.
      destruct Hl as [Hl|[<-|[]]].
      * apply link_ok_mono with (s := s);
          [now rewrite En | now rewrite Eh | exact (inv_links H l Hl)].
      * exists src, tgt. rewrite En, Eh. cbn [l_source l_target l_id]. auto 10.
  - intros F. constructor.
    + unfold node_ids. rewrite En, Eh. exact (ids_unique F).
    + rewrite En, Eh, Ei. apply (ids_below F).
Qed.

Lemma filter_links_keeps_inv (p : Link -> bool) s :
  graph_inv s -> keeps s (set_links (filter p (links s)) s).
Proof.
  intros [Ha Hs Hl]. split.
  - constructor; auto.
    intros l Hin. cbn [links set_links] in Hin. apply filter_In in Hin.
    destruct Hin as [Hin _]. apply link_ok_mono with (s := s); auto.
  - intros [Hu Hb]. constructor; auto.
Qed.

Lemma keep_resolved_link_ok s (ls : list WireLink) :
  Forall (fun l => w_source l <> w_target l) ls ->
  forall l, In l (keep_resolved (map (loaded_of_wire s) ls)) -> link_ok s l.
Proof.
  induction 1 as [|w ls Hw _ IH]; intros l Hin; cbn [map keep_resolved] in Hin.
  - destruct Hin.
  - cbn [loaded_of_wire ll_source ll_target ll_id ll_isBreakerLink] in Hin.
    destruct (find_by_wire_id (w_source w) s) as [a|] eqn:Ea; [|now apply IH].
    destruct (find_by_wire_id (w_target w) s) as [b|] eqn:Eb; [|now apply IH].
    destruct Hin as [<-|Hin]; [|now apply IH].
    apply find_by_wire_id_some in Ea. apply find_by_wire_id_some in Eb.
    destruct Ea as [Ia Ea], Eb as [Ib Eb].
    exists a, b. cbn [l_source l_target l_id].
    repeat split; auto.
    + intros E. apply Hw. now rewrite Ea, Eb, E.
    + now rewrite Ea, Eb.
Qed.

Lemma loaded_keeps_inv rnd s w ws ls :
  graph_inv s ->
  connectionSourceNode s = None ->
  Forall (fun l => w_source l <> w_target l) ls ->
  graph_inv (loaded rnd s w ws ls)
  /\ (NoDup (map w_id (w :: ws)) -> Forall safe_integer (map w_id (w :: ws)) ->
      fresh_ids (loaded rnd s w ws ls)).
Proof.
  intros H Hc Hls. unfold loaded. cbv zeta.
  set (s1 := set_nodes _ _).
  assert (Hnodes : nodes s1 = seq (nextRef s) (S (length ws))) by reflexivity.
  assert (Hheap : map (heap s1) (nodes s1) = nodes_of_wire rnd s 0 (w :: ws)).
  { unfold s1. cbn [nodes heap set_nodes set_nextRef set_heap].
    rewrite <- (nodes_of_wire_length rnd s (w :: ws) 0) at 1.
    apply store_all_seq. }
  assert (Hids : node_ids s1 = map w_id (w :: ws)).
  { unfold node_ids. rewrite <- (map_map (heap s1) n_id), Hheap.
    apply nodes_of_wire_ids. }
  assert (Hnext : nextRef s1 = (nextRef s + S (length ws))%nat) by reflexivity.
  assert (Hconn : connectionSourceNode s1 = None) by exact Hc.
  clearbody s1.
  split.
  - constructor; cbn [nodes links nextRef nextId heap connectionSourceNode
                      set_alpha set_nextId set_links].
    + intros r Hr. rewrite Hnodes in Hr. apply in_seq in Hr. lia.
    + intros r Hr. rewrite Hconn in Hr. discriminate.
    + intros l Hl. apply link_ok_mono with (s := s1); auto.
      now apply keep_resolved_link_ok with (ls := ls).
  - intros Hnd Hsafe.
    destruct (Math_max_ge (map w_id ws) (w_id w)) as [Hw Hws].
    assert (Hmax : safe_integer (Math_max (w_id w) (map w_id ws))).
    { rewrite Forall_forall in Hsafe. apply Hsafe, Math_max_in. }
    constructor; cbn [nodes links nextRef nextId heap connectionSourceNode
                      set_alpha set_nextId set_links].
    + unfold node_ids in *. cbn [nodes heap set_alpha set_nextId set_links].
      rewrite Hids. exact Hnd.
    + rewrite (number_add_safe Hmax). intros r Hr.
      assert (Hin : In (n_id (heap s1 r)) (map w_id (w :: ws))).
      { rewrite <- Hids. unfold node_ids. apply in_map_iff. eauto. }
      cbn [map] in Hin. destruct Hin as [E|Hin].
      * rewrite <- E. lia.
      * pose proof (Hws _ Hin). lia.
Qed.

Lemma loadGraph_keeps_inv rnd data s :
  graph_inv s -> payload_ok data -> connectionSourceNode s = None ->
  graph_inv (exec (loadGraph rnd data) s)
  /\ (fresh_ids s -> Forall safe_integer (payload_ids data) ->
      fresh_ids (exec (loadGraph rnd data) s)).
Proof.
  intros H [Hnd (ls & Hls & Hne)] Hc.
  destruct data as [ns lks]. cbn [p_links] in Hls. subst lks.
  unfold payload_ids in *. cbn [p_nodes] in *.
  destruct ns as [[|w ws]|].
  - split; [exact H | auto].
  - unfold exec. rewrite loadGraph_run. cbn [snd].
    destruct (loaded_keeps_inv rnd s w ws ls H Hc Hne) as [H1 F1].
    split; [exact H1 | auto].
  - split; [exact H | auto].
Qed.

(** ** What the handlers keep *)

Lemma set_note_id sel text s r :
  n_id (heap (set_note sel text s) r) = n_id (heap s r).
Proof.
  unfold set_note. cbn [heap set_heap]. unfold store.
  destruct (Nat.eqb_spec r sel) as [->|_]; reflexivity.
Qed.

Lemma closeEditor_fields s :
  let s' := exec closeEditor s in
  nodes s' = nodes s /\ links s' = links s /\ heap s' = heap s
  /\ nextRef s' = nextRef s /\ nextId s' = nextId s
  /\ connectionSourceNode s' = connectionSourceNode s
  /\ timers s' = timers s /\ timeout s' = timeout s /\ nextTimer s' = nextTimer s
  /\ selectedNode s' = None /\ editorActive s' = false
  /\ posted s' = posted s ++ [graphData s].
Proof.
  cbv zeta. unfold exec, closeEditor, bind, get, modify, ret, saveGraph.
  cbn [fst snd]. cbn [selectedNode set_editorActive].
  destruct (selectedNode s) eqn:E; cbn; rewrite ?E; repeat split.
Qed.

Lemma clearConnectionSelection_run s :
  clearConnectionSelection s = (Normal tt, set_connectionSourceNode None s)
  \/ (connectionSourceNode s = None /\ clearConnectionSelection s = (Normal tt, s)).
Proof.
  unfold clearConnectionSelection, bind, get, modify, ret.
  destruct (connectionSourceNode s) eqn:E; [left | right]; auto.
Qed.

Lemma clearConnectionSelection_keeps_inv s :
  graph_inv s -> keeps s (exec clearConnectionSelection s).
Proof.
  intros H. unfold exec.
  destruct (clearConnectionSelection_run s) as [E|[_ E]]; rewrite E; cbn [snd];
    [|now apply keeps_refl].
  apply (inv_frame s _ H); try reflexivity. discriminate.
Qed.

Lemma closeEditor_keeps_inv s : graph_inv s -> keeps s (exec closeEditor s).
Proof.
  intros H. destruct (closeEditor_fields s) as (En & El & Eh & Er & Ei & Ec & _).
  apply (inv_frame s _ H); auto.
  - intros r. now rewrite Eh.
  - intros r Hr. rewrite Ec in Hr. exact (inv_source H Hr).
Qed.

Lemma saveGraph_keeps_inv s : graph_inv s -> keeps s (exec saveGraph s).
Proof. intros H. apply (inv_frame s _ H); try reflexivity. exact (@inv_source s H). Qed.

Lemma bind_normal {A B} (c : M A) (f : A -> M B) (s : State) (a : A) (s' : State) :
  c s = (Normal a, s') -> bind c f s = f a s'.
Proof. intros H. unfold bind. now rewrite H. Qed.

Lemma createNode_fields x y type parentId now s :
  let s' := exec (createNode x y type parentId now) s in
  result (createNode x y type parentId now) s = Normal (nextRef s)
  /\ nodes s' = nodes s ++ [nextRef s]
  /\ links s' = links s
  /\ nextRef s' = S (nextRef s)
  /\ nextId s' = number_add (nextId s) 1
  /\ connectionSourceNode s' = connectionSourceNode s
  /\ heap s' (nextRef s) = freshNode x y type parentId now s
  /\ (forall r, r <> nextRef s -> heap s' r = heap s r).
Proof.
  cbv zeta. unfold exec, result. rewrite createNode_run. cbn [fst snd].
  cbn [nodes links nextRef nextId heap connectionSourceNode
       set_alpha set_nodes set_nextId set_nextRef set_heap].
  repeat split; [apply store_same | intros r Hr; now apply store_other].
Qed.

Lemma handleWheel_keeps_inv ev s : graph_inv s -> keeps s (exec (handleWheel ev) s).
Proof. intros H. apply (inv_frame s _ H); try reflexivity. exact (@inv_source s H). Qed.

Lemma editorChange_run value s :
  editorChange value s =
  (Normal tt,
   set_timeout (Some (nextTimer s))
     (set_nextTimer (S (nextTimer s))
        (set_timers (pending_without (timeout s) (timers s) ++ [nextTimer s])
           (set_editorValue value s)))).
Proof.
  unfold editorChange, executedFunction, clearTimeout, setTimeout, bind, get, modify, ret.
  cbn [fst snd timeout set_editorValue]. destruct (timeout s); reflexivity.
Qed.

Lemma timerFires_run id s :
  timerFires id s =
  (Normal tt,
   if existsb (Nat.eqb id) (timers s) then
     let s1 := set_timers (pending_without (timeout s)
                             (filter (fun j => negb (Nat.eqb j id)) (timers s))) s in
     match selectedNode s with
     | Some sel =>
         let s2 := set_note sel (editorValue s) s1 in
         set_posted (posted s ++ [graphData s2]) s2
     | None => s1
     end
   else s).
Proof.
  unfold timerFires. step_get. destruct (existsb (Nat.eqb id) (timers s)); [|reflexivity].
  unfold later, onEditorChange, clearTimeout, saveGraph, bind, get, modify, ret.
  cbn [fst snd timers timeout selectedNode set_timers].
  destruct (timeout s); cbn [fst snd timers timeout selectedNode set_timers];
    destruct (selectedNode s); reflexivity.
Qed.

Lemma editorChange_keeps_inv value s :
  graph_inv s -> keeps s (exec (editorChange value) s).
Proof.
  intros H. unfold exec. rewrite editorChange_run. cbn [snd].
  apply (inv_frame s _ H); try reflexivity. exact (@inv_source s H).
Qed.

Lemma timerFires_keeps_inv id s : graph_inv s -> keeps s (exec (timerFires id) s).
Proof.
  intros H. unfold exec. rewrite timerFires_run. cbn [snd].
  destruct (existsb (Nat.eqb id) (timers s)); [|now apply keeps_refl].
  destruct (selectedNode s) as [sel|]; cbv zeta.
  - apply (inv_frame s _ H); try reflexivity.
    + intros r. cbn [heap set_posted]. rewrite set_note_id. reflexivity.
    + exact (@inv_source s H).
  - apply (inv_frame s _ H); try reflexivity. exact (@inv_source s H).
Qed.

Lemma clearConnectionSelection_exec s :
  clearConnectionSelection s = (Normal tt, set_connectionSourceNode None s).
Proof.
  unfold clearConnectionSelection, bind, get, modify, ret.
  destruct s; cbn. destruct connectionSourceNode0; reflexivity.
Qed.

Lemma handleNodeRightClick_run cosA sinA now d s :
  isDragging s = false ->
  handleNodeRightClick cosA sinA now d s =
  createLink d (nextRef s) false
    (exec (createNode (n_x (heap s d) + cosA * CONFIG.linkDistance)
                      (n_y (heap s d) + sinA * CONFIG.linkDistance)
                      child (Some (n_id (heap s d))) now)
          (set_connectionSourceNode None s)).
Proof.
  intros Hd. unfold handleNodeRightClick. step_get. rewrite Hd.
  rewrite (@bind_normal _ _ _ _ _ _ _ (clearConnectionSelection_exec s)).
  step_get. cbn [heap set_connectionSourceNode].
  rewrite (@bind_normal _ _ _ _ _ _ _ (createNode_run _ _ _ _ _ _)). reflexivity.
Qed.

Lemma handleNodeRightClick_keeps_inv cosA sinA now d s :
  graph_inv s -> In d (nodes s) ->
  keeps_while_safe s (exec (handleNodeRightClick cosA sinA now d) s).
Proof.
  intros H Hd. unfold exec at 1.
  destruct (isDragging s) eqn:E.
  - unfold handleNodeRightClick. step_get. rewrite E.
    apply keeps_safe_of_keeps, keeps_refl, H.
  - rewrite (handleNodeRightClick_run _ _ _ _ _ E).
    set (s0 := set_connectionSourceNode None s).
    assert (K0 : keeps s s0).
    { apply (inv_frame s _ H); try reflexivity. discriminate. }
    apply (keeps_then_safe s s0); [exact K0 | reflexivity|]. intros H0.
    set (c := createNode _ _ _ _ _).
    destruct (createNode_fields (n_x (heap s d) + cosA * CONFIG.linkDistance)
                (n_y (heap s d) + sinA * CONFIG.linkDistance)
                child (Some (n_id (heap s d))) now s0)
      as (_ & En & _ & _ & _ & _ & Hnew & Hold).
    fold c in En, Hnew, Hold.
    assert (Hlt : (d < nextRef s)%nat) by exact (inv_allocated H d Hd).
    apply (safe_then_keeps s0 (exec c s0)); [now apply createNode_keeps_inv|].
    intros H1. apply createLink_keeps_inv.
    + exact H1.
    + rewrite En. apply in_or_app. now left.
    + rewrite En. apply in_or_app. right. now left.
    + change (nextRef s0) with (nextRef s). lia.
Qed.

Lemma handleCtrlClickForConnection_keeps_inv d s :
  graph_inv s -> In d (nodes s) ->
  keeps s (exec (handleCtrlClickForConnection d) s).
Proof.
  intros H Hd. unfold exec, handleCtrlClickForConnection. step_get.
  destruct (connectionSourceNode s) as [src|] eqn:Ec.
  - destruct (n_id (heap s src) =? n_id (heap s d))%Z eqn:E.
    + apply clearConnectionSelection_keeps_inv, H.
    + rewrite (@bind_normal _ _ _ _ _ _ _ (createLink_run src d false s)).
      assert (Hl : keeps s (exec (createLink src d false) s)).
      { apply createLink_keeps_inv; auto.
        - exact (inv_source H Ec).
        - intros ->. rewrite Z.eqb_refl in E. discriminate. }
      unfold exec in Hl. rewrite createLink_run in Hl. cbn [snd] in Hl.
      apply (keeps_trans s _ _ Hl). intros H1.
      apply (clearConnectionSelection_keeps_inv _ H1).
  - unfold setConnectionSource, modify. cbn [snd].
    apply (inv_frame s _ H); try reflexivity.
    cbn [connectionSourceNode set_connectionSourceNode]. now intros r [= <-].
Qed.

Lemma selectNode_keeps_inv d s : graph_inv s -> keeps s (exec (selectNode d) s).
Proof. intros H. apply (inv_frame s _ H); try reflexivity. exact (@inv_source s H). Qed.

Lemma handleNodeClick_keeps_inv ev d s :
  graph_inv s -> In d (nodes s) -> keeps s (exec (handleNodeClick ev d) s).
Proof.
  intros H Hd. unfold exec, handleNodeClick. step_get.
  destruct (isDragging s); [now apply keeps_refl|].
  destruct (ctrlKey ev).
  - now apply handleCtrlClickForConnection_keeps_inv.
  - now apply selectNode_keeps_inv.
Qed.

Lemma handleBackgroundClick_keeps_inv ev now s :
  graph_inv s -> keeps_while_safe s (exec (handleBackgroundClick ev now) s).
Proof.
  intros H. unfold exec, handleBackgroundClick.
  destruct (targetIsSvg ev); cbn [negb];
    [|apply keeps_safe_of_keeps, keeps_refl, H].
  destruct (ctrlKey ev).
  - step_get. rewrite (@bind_normal _ _ _ _ _ _ _ (createNode_run _ _ _ _ _ _)).
    unfold ret. cbn [snd]. exact (createNode_keeps_inv _ _ _ _ _ _ H).
  - apply keeps_safe_of_keeps. step_get.
    assert (E : forall s1, (match connectionSourceNode s with
                            | Some _ => clearConnectionSelection
                            | None => ret tt
                            end) s = (Normal tt, s1) -> keeps s s1).
    { intros s1. destruct (connectionSourceNode s).
      - rewrite clearConnectionSelection_exec. intros [= <-].
        apply (inv_frame s _ H); try reflexivity. discriminate.
      - unfold ret. intros [= <-]. now apply keeps_refl. }
    destruct ((match connectionSourceNode s with
               | Some _ => clearConnectionSelection
               | None => ret tt
               end) s) as [[[]|e] s1] eqn:E1.
    + rewrite (@bind_normal _ _ _ _ _ _ _ E1). step_get.
      specialize (E s1 eq_refl).
      destruct (editorActive s1); [|exact E].
      apply (keeps_trans s s1 _ E). intros H1. now apply closeEditor_keeps_inv.
    + exfalso. destruct (connectionSourceNode s).
      * rewrite clearConnectionSelection_exec in E1. discriminate.
      * discriminate.
Qed.

Lemma handleBackgroundRightClick_keeps_inv ev now s :
  graph_inv s -> keeps_while_safe s (exec (handleBackgroundRightClick ev now) s).
Proof.
  intros H. unfold exec, handleBackgroundRightClick.
  destruct (ctrlKey ev); [|apply keeps_safe_of_keeps, keeps_refl, H]. step_get.
  destruct (isDragging s || isPanning s); [apply keeps_safe_of_keeps, keeps_refl, H|].
  rewrite (@bind_normal _ _ _ _ _ _ _ (createNode_run _ _ _ _ _ _)).
  unfold ret. cbn [snd]. exact (createNode_keeps_inv _ _ _ _ _ _ H).
Qed.

Lemma set_note_keeps_inv r text s : graph_inv s -> keeps s (set_note r text s).
Proof.
  intros H. apply (inv_frame s _ H); try reflexivity.
  - intros r'. apply set_note_id.
  - exact (@inv_source s H).
Qed.

Lemma createBreakerOnLine_keeps_inv l now s :
  graph_inv s -> In l (links s) ->
  keeps_while_safe s (exec (createBreakerOnLine l now) s).
Proof.
  intros H Hl.
  destruct (inv_links H l Hl) as (a & b & Ea & Eb & Ia & Ib & _ & _).
  assert (Hs : resolveEndpoint (l_source l) s = Some a) by now rewrite Ea.
  assert (Ht : resolveEndpoint (l_target l) s = Some b) by now rewrite Eb.
  unfold exec. rewrite (createBreakerOnLine_run l now s Hs Ht). cbn [snd].
  set (s1 := set_links _ s).
  apply (keeps_then_safe s s1);
    [now apply filter_links_keeps_inv | reflexivity |]. intros H1.
  set (x := (n_x (heap s a) + n_x (heap s b)) / 2).
  set (y := (n_y (heap s a) + n_y (heap s b)) / 2).
  destruct (createNode_fields x y breaker None now s1)
    as (_ & En & _ & _ & _ & _ & _ & _).
  unfold exec in En.
  set (s2 := snd (createNode x y breaker None now s1)) in *.
  apply (safe_then_keeps s1 s2); [exact (createNode_keeps_inv x y breaker None now s1 H1)|].
  intros H2.
  change (nextRef s1) with (nextRef s) in *. change (nodes s1) with (nodes s) in *.
  set (s3 := set_note (nextRef s) breakerNoteText s2).
  apply (keeps_trans s2 s3); [now apply set_note_keeps_inv|]. intros H3.
  assert (En3 : nodes s3 = nodes s ++ [nextRef s]) by exact En.
  pose proof (inv_allocated H a Ia) as Hal.
  pose proof (inv_allocated H b Ib) as Hbl.
  apply (keeps_trans s3 (exec (createLink a (nextRef s) true) s3)).
  { apply createLink_keeps_inv; auto.
    - rewrite En3. apply in_or_app. now left.
    - rewrite En3. apply in_or_app. right. now left.
    - lia. }
  intros H4.
  destruct (createLink_fields a (nextRef s) true s3) as (En4 & _).
  unfold exec in H4, En4.
  change (keeps (snd (createLink a (nextRef s) true s3))
            (exec (createLink (nextRef s) b true)
               (snd (createLink a (nextRef s) true s3)))).
  apply createLink_keeps_inv; auto.
  - rewrite En4, En3. apply in_or_app. right. now left.
  - rewrite En4, En3. apply in_or_app. now left.
  - lia.
Qed.

Lemma handleLinkClick_keeps_inv ev l now s :
  graph_inv s -> In l (links s) ->
  keeps_while_safe s (exec (handleLinkClick ev l now) s).
Proof.
  intros H Hl. unfold exec, handleLinkClick.
  destruct (ctrlKey ev); [|apply keeps_safe_of_keeps, keeps_refl, H].
  pose proof (createBreakerOnLine_keeps_inv l now s H Hl) as Hb. unfold exec in Hb.
  unfold bind. destruct (createBreakerOnLine l now s) as [[r|e] s']; exact Hb.
Qed.

Lemma deleteSelectedNode_keeps_inv this s :
  graph_inv s -> keeps s (exec (deleteSelectedNode this) s).
Proof.
  intros H. unfold exec, deleteSelectedNode. step_get.
  destruct (selectedNode s) as [sel|] eqn:Esel; [|now apply keeps_refl].
  destruct this; [now apply keeps_refl|]. step_ret.
  destruct (nodes s) as [|r rs] eqn:En; [|now apply keeps_refl].
  destruct s as [hp nr ns ls ni sn cs dr pn wd ht cz zt ch al ea evl tmo tms nt ps].
  cbn in En, Esel. subst ns sn.
  cbn. destruct H as [Ha Hs Hl]. split.
  - constructor; cbn in *.
    + intros r [].
    + exact Hs.
    + intros l Hin. apply filter_In in Hin. destruct Hin as [Hin _].
      destruct (Hl l Hin) as (a & _ & _ & _ & [] & _).
  - intros _. constructor; cbn.
    + constructor.
    + intros r [].
Qed.

Lemma closeEditor_normal s : closeEditor s = (Normal tt, exec closeEditor s).
Proof.
  unfold exec, closeEditor, bind, get, modify, ret, saveGraph. cbn [fst snd].
  cbn [selectedNode set_editorActive]. destruct (selectedNode s); reflexivity.
Qed.

Lemma handleKeydown_keeps_inv key ctrl s :
  graph_inv s -> keeps s (exec (handleKeydown key ctrl) s).
Proof.
  intros H. unfold exec, handleKeydown. destruct key.
  - rewrite (@bind_normal _ _ _ _ s tt (exec clearConnectionSelection (exec closeEditor s))).
    + assert (K : keeps s (exec clearConnectionSelection (exec closeEditor s))).
      { apply (keeps_trans s (exec closeEditor s)); [now apply closeEditor_keeps_inv|].
        apply clearConnectionSelection_keeps_inv. }
      destruct ctrl; cbn [andb]; unfold bind, ret, get; cbn [fst snd]; exact K.
    + rewrite (@bind_normal _ _ _ _ _ _ _ (closeEditor_normal s)).
      rewrite clearConnectionSelection_exec. unfold exec.
      rewrite clearConnectionSelection_exec. reflexivity.
  - destruct ctrl; unfold bind, ret, get; cbn [fst snd andb].
    + now apply saveGraph_keeps_inv.
    + now apply keeps_refl.
  - pose proof (deleteSelectedNode_keeps_inv ThisUndefined s H) as Hd. unfold exec in Hd.
    destruct ctrl; cbn [andb]; unfold bind, ret, get; cbv beta iota;
      (destruct (selectedNode s); [exact Hd | now apply keeps_refl]).
  - destruct ctrl; now apply keeps_refl.
Qed.

(** ** Every state of a session *)

Lemma page_inv w h : graph_inv (initialState w h) /\ fresh_ids (initialState w h).
Proof.
  split; constructor; cbn.
  - intros r [].
  - discriminate.
  - intros l [].
  - constructor.
  - intros r [].
Qed.

Lemma handle_keeps_inv e s :
  graph_inv s -> enabled s e ->
  graph_inv (exec (handle e) s)
  /\ (fresh_ids s -> safe_step s e -> fresh_ids (exec (handle e) s)).
Proof.
  intros H He.
  assert (Hk : forall s', keeps s s' ->
                 graph_inv s' /\ (fresh_ids s -> safe_integer (nextId s) -> fresh_ids s')).
  { intros s' K. exact (keeps_safe_of_keeps s s' K). }
  destruct e; cbn [handle enabled safe_step] in *.
  - now apply handleBackgroundClick_keeps_inv.
  - now apply handleBackgroundRightClick_keeps_inv.
  - now apply Hk, handleNodeClick_keeps_inv.
  - now apply handleNodeRightClick_keeps_inv.
  - now apply handleLinkClick_keeps_inv.
  - now apply Hk, handleWheel_keeps_inv.
  - now apply Hk, handleKeydown_keeps_inv.
  - now apply Hk, saveGraph_keeps_inv.
  - now apply Hk, deleteSelectedNode_keeps_inv.
  - now apply Hk, closeEditor_keeps_inv.
  - now apply Hk, editorChange_keeps_inv.
  - now apply Hk, timerFires_keeps_inv.
  - destruct He. now apply loadGraph_keeps_inv.
Qed.

Lemma reachable_inv s : reachable s -> graph_inv s.
Proof.
  induction 1 as [w h | s e _ IH He].
  - apply page_inv.
  - now apply handle_keeps_inv.
Qed.

Lemma reachable_safe_reachable s : reachable_safe s -> reachable s.
Proof.
  induction 1 as [w h | s e _ IH He _]; [apply reach_page | now apply reach_step].
Qed.

Lemma reachable_safe_ids s : reachable_safe s -> fresh_ids s.
Proof.
  induction 1 as [w h | s e Hr IH He Hs].
  - apply page_inv.
  - apply reachable_safe_reachable, reachable_inv in Hr.
    now apply (handle_keeps_inv e s Hr He).
Qed.

Lemma reachable_run (evs : list Event) :
  forall s, reachable s -> all_enabled evs s -> reachable (run_session evs s).
Proof.
  induction evs as [|e evs IH]; intros s Hs He; cbn in *.
  - exact Hs.
  - destruct He as [He Hrest]. apply IH; [|exact Hrest].
    now apply reach_step.
Qed.

Lemma reachable_safe_run (evs : list Event) :
  forall s, reachable_safe s -> all_enabled evs s -> all_safe evs s ->
            reachable_safe (run_session evs s).
Proof.
  induction evs as [|e evs IH]; intros s Hs He Hsafe; cbn in *.
  - exact Hs.
  - destruct He as [He Hrest]. destruct Hsafe as [Hsafe Hsrest].
    apply IH; [|exact Hrest|exact Hsrest]. now apply safe_next.
Qed.

Lemma afterTour_reachable : reachable afterTour.
Proof.
  apply reachable_run; [apply reach_page|].
  cbn [tour all_enabled enabled]. repeat split; vm_compute; auto.
Defined.

Lemma afterTour_safe : reachable_safe afterTour.
Proof.
  apply reachable_safe_run; [apply safe_page| |].
  - cbn [tour all_enabled enabled]. repeat split; vm_compute; auto.
  - cbn [tour all_safe safe_step]. repeat split; vm_compute; reflexivity.
Defined.

Lemma idReused_reachable : reachable idReused.
Proof.
  apply reachable_run; [apply reach_page|].
  cbn [beyondSafe all_enabled enabled]. repeat split.
  - vm_compute. repeat constructor. intros [].
  - exists []. split; [reflexivity | constructor].
  - vm_compute. auto.
Defined.

Lemma NoDup_map_eq {A B} (f : A -> B) (l : list A) :
  NoDup (map f l) -> forall a b, In a l -> In b l -> f a = f b -> a = b.
Proof.
  induction l as [|x l IH]; intros Hn a b Ha Hb E; [contradiction|].
  cbn [map] in Hn. inversion Hn as [|? ? Hx Hl]; subst.
  destruct Ha as [<-|Ha], Hb as [<-|Hb].
  - reflexivity.
  - exfalso. apply Hx. rewrite E. apply in_map, Hb.
  - exfalso. apply Hx. rewrite <- E. apply in_map, Ha.
  - apply IH; assumption.
Qed.

(** In every state of a session within the safe integers the node ids are
    pairwise different and smaller than [nextId]: the id the next node gets
    is the id of no node.  Beyond the safe integers this fails: when a body
    with a node of id 2^53 has been loaded the counter is 2^53 and stays
    there, and the child spawned by a right-click on that node gets the id
    2^53 as well. *)
Theorem reachable_ids_unique :
  (forall s,
     reachable_safe s ->
     NoDup (node_ids s)
     /\ (forall r, In r (nodes s) -> (n_id (heap s r) < nextId s)%Z)
     /\ ~ In (nextId s) (node_ids s)
     /\ NoDup (nodes s))
  /\ (reachable idReused
      /\ node_ids idReused = [two53; two53]
      /\ nextId idReused = two53
      /\ ~ NoDup (node_ids idReused)).
Proof.
  split.
  - intros s Hr. pose proof (reachable_safe_ids s Hr) as F.
    split; [exact (ids_unique F)|]. split; [exact (ids_below F)|].
    split; [exact (node_ids_below_fresh s F)|].
    exact (NoDup_map_inv _ _ (ids_unique F)).
  - split; [exact idReused_reachable|].
    assert (E : node_ids idReused = [two53; two53]) by reflexivity.
    split; [exact E|]. split; [reflexivity|].
    rewrite E. intros H. inversion H as [|? ? Hin _]. apply Hin. now left.
Qed.

Lemma reachable_ids_unique_witness :
  node_ids afterTour = [1; 2; 3; 4]%Z /\ nextId afterTour = 5%Z
  /\ NoDup (node_ids afterTour) /\ ~ In (nextId afterTour) (node_ids afterTour).
Proof.
  split; [reflexivity|]. split; [reflexivity|].
  destruct (proj1 reachable_ids_unique afterTour afterTour_safe) as (Hu & _ & Hf & _).
  split; [exact Hu | exact Hf].
Defined.

(** In every state of a session each link joins two members of
    [state.nodes], by reference, and its id is the pair of their ids; so in
    the body [saveGraph] writes, the source and the target of every link are
    ids of nodes of that body. *)
Theorem reachable_links_join_nodes s l :
  reachable s -> In l (links s) ->
  (exists a b,
     l_source l = EObj a /\ l_target l = EObj b
     /\ In a (nodes s) /\ In b (nodes s)
     /\ l_id l = (Some (n_id (heap s a)), Some (n_id (heap s b))))
  /\ resolves_in (payload_ids (graphData s)) (w_source (wire_of_link s l)) = true
  /\ resolves_in (payload_ids (graphData s)) (w_target (wire_of_link s l)) = true.
Proof.
  intros Hr Hl. pose proof (reachable_inv s Hr) as H.
  destruct (inv_links H l Hl) as (a & b & Ea & Eb & Ia & Ib & _ & Eid).
  split; [exists a, b; auto|].
  assert (Hids : payload_ids (graphData s) = node_ids s).
  { unfold payload_ids, graphData, node_ids. cbn [p_nodes]. now rewrite map_map. }
  rewrite Hids. unfold wire_of_link. cbn [w_source w_target]. rewrite Ea, Eb.
  cbn [endpoint_id resolves_in].
  split; apply existsb_exists.
  - exists (n_id (heap s a)). split; [|apply Z.eqb_refl].
    unfold node_ids. apply in_map_iff. eauto.
  - exists (n_id (heap s b)). split; [|apply Z.eqb_refl].
    unfold node_ids. apply in_map_iff. eauto.
Qed.

Lemma reachable_links_join_nodes_witness :
  length (links afterTour) = 3%nat
  /\ resolves_in (payload_ids (graphData afterTour))
       (w_source (wire_of_link afterTour
          (mkLink (EObj 2%nat) (EObj 3%nat) (Some 3%Z, Some 4%Z) false))) = true.
Proof.
  split; [reflexivity|].
  apply (reachable_links_join_nodes afterTour
           (mkLink (EObj 2%nat) (EObj 3%nat) (Some 3%Z, Some 4%Z) false)
           afterTour_reachable).
  vm_compute. auto.
Defined.

(** In every state of a session no link joins a node object to itself, and
    in a session within the safe integers the two endpoints of a link have
    different ids as well.  Beyond the safe integers the ids can agree: the
    child spawned from a loaded node of id 2^53 gets the id 2^53, and the
    link between the two joins equal ids. *)
Theorem reachable_no_self_loop :
  (forall s l a b,
     reachable s -> In l (links s) ->
     l_source l = EObj a -> l_target l = EObj b ->
     a <> b /\ (reachable_safe s -> n_id (heap s a) <> n_id (heap s b)))
  /\ (reachable idReused
      /\ links idReused = [mkLink (EObj 0%nat) (EObj 1%nat) (Some two53, Some two53) false]
      /\ n_id (heap idReused 0%nat) = n_id (heap idReused 1%nat)).
Proof.
  split.
  - intros s l a b Hr Hl Ea Eb. pose proof (reachable_inv s Hr) as H.
    destruct (inv_links H l Hl) as (a' & b' & Ea' & Eb' & Ia & Ib & Hne & _).
    rewrite Ea in Ea'. rewrite Eb in Eb'. injection Ea' as <-. injection Eb' as <-.
    split; [exact Hne|]. intros Hs E. apply Hne.
    pose proof (reachable_safe_ids s Hs) as F.
    exact (NoDup_map_eq (fun r => n_id (heap s r)) (nodes s) (ids_unique F) a b Ia Ib E).
  - split; [exact idReused_reachable|]. split; reflexivity.
Qed.

Lemma reachable_no_self_loop_witness :
  2%nat <> 3%nat /\ n_id (heap afterTour 2%nat) <> n_id (heap afterTour 3%nat).
Proof.
  destruct (proj1 reachable_no_self_loop afterTour
              (mkLink (EObj 2%nat) (EObj 3%nat) (Some 3%Z, Some 4%Z) false) 2%nat 3%nat
              afterTour_reachable) as [Hobj Hid];
    [vm_compute; auto | reflexivity | reflexivity |].
  split; [exact Hobj | exact (Hid afterTour_safe)].
Defined.

(** ** The handlers that leave the timers alone *)

Lemma same_timers_refl s : same_timers s s.
Proof. repeat split. Qed.

Lemma same_timers_trans s1 s2 s3 :
  same_timers s1 s2 -> same_timers s2 s3 -> same_timers s1 s3.
Proof. intros (A1 & A2 & A3) (B1 & B2 & B3). repeat split; congruence. Qed.

Lemma kt_ret {A} (a : A) : keeps_timers (ret a).
Proof. intros s. apply same_timers_refl. Qed.

Lemma kt_get : keeps_timers get.
Proof. intros s. apply same_timers_refl. Qed.

Lemma kt_throw {A} (e : JsError) : keeps_timers (@throw A e).
Proof. intros s. apply same_timers_refl. Qed.

Lemma kt_modify (f : State -> State) :
  (forall s, same_timers s (f s)) -> keeps_timers (modify f).
Proof. intros H s. apply H. Qed.

Lemma kt_bind {A B} (c : M A) (f : A -> M B) :
  keeps_timers c -> (forall a, keeps_timers (f a)) -> keeps_timers (bind c f).
Proof.
  intros Hc Hf s. unfold bind. specialize (Hc s).
  destruct (c s) as [[a|e] s']; cbn [snd] in *; [|exact Hc].
  exact (same_timers_trans _ _ _ Hc (Hf a s')).
Qed.

Lemma kt_catch_log (c : M unit) : keeps_timers c -> keeps_timers (catch_log c).
Proof.
  intros Hc s. unfold catch_log. specialize (Hc s).
  destruct (c s) as [[a|e] s']; exact Hc.
Qed.

Create HintDb timers.
#[local] Hint Resolve kt_ret kt_get kt_throw kt_catch_log : timers.

(** The structure of a handler is followed down to the operations known to
    leave the timers alone. *)
Ltac kt :=
  repeat match goal with
         | |- keeps_timers (match ?x with _ => _ end) => destruct x
         | |- keeps_timers (if ?x then _ else _) => destruct x
         | |- keeps_timers (bind _ _) => apply kt_bind; [|intros ?]
         | |- keeps_timers (modify _) => apply kt_modify; intros ?; repeat split
         | |- keeps_timers _ => solve [auto with timers]
         end.

Lemma kt_restart : keeps_timers restart.
Proof. unfold restart. kt. Qed.

Lemma kt_saveGraph : keeps_timers saveGraph.
Proof. unfold saveGraph. kt. Qed.

Lemma kt_new_object n : keeps_timers (new_object n).
Proof. unfold new_object. kt. Qed.

#[local] Hint Resolve kt_restart kt_saveGraph kt_new_object : timers.

Lemma kt_createNode x y type parentId now : keeps_timers (createNode x y type parentId now).
Proof. unfold createNode. kt. Qed.

Lemma kt_createLink src tgt b : keeps_timers (createLink src tgt b).
Proof. unfold createLink. kt. Qed.

Lemma kt_closeEditor : keeps_timers closeEditor.
Proof. unfold closeEditor. kt. Qed.

Lemma kt_clearConnectionSelection : keeps_timers clearConnectionSelection.
Proof. unfold clearConnectionSelection. kt. Qed.

#[local] Hint Resolve kt_createNode kt_createLink kt_closeEditor
  kt_clearConnectionSelection : timers.

Lemma kt_createBreakerOnLine l now : keeps_timers (createBreakerOnLine l now).
Proof. unfold createBreakerOnLine. kt. Qed.

Lemma kt_selectNode d : keeps_timers (selectNode d).
Proof. unfold selectNode, openEditor. kt. Qed.

Lemma kt_handleCtrlClickForConnection d : keeps_timers (handleCtrlClickForConnection d).
Proof. unfold handleCtrlClickForConnection, setConnectionSource. kt. Qed.

#[local] Hint Resolve kt_createBreakerOnLine kt_selectNode
  kt_handleCtrlClickForConnection : timers.

Lemma kt_findM (cb : Node -> M bool) (rs : list ref) :
  (forall n, keeps_timers (cb n)) -> keeps_timers (findM cb rs).
Proof. intros H. induction rs as [|r rs IH]; cbn [findM]; kt. Qed.

Lemma orphan_children_same_timers nodeId (rs : list ref) :
  forall s, same_timers s (orphan_children nodeId rs s).
Proof.
  induction rs as [|r rs IH]; intros s; cbn [orphan_children].
  - apply same_timers_refl.
  - eapply same_timers_trans; [|apply IH].
    destruct (optZ_eqb _ _); repeat split.
Qed.

Lemma kt_deleteSelectedNode this : keeps_timers (deleteSelectedNode this).
Proof.
  unfold deleteSelectedNode. apply kt_bind; [kt|]. intros s.
  destruct (selectedNode s); [|kt].
  apply kt_bind; [kt|]. intros _.
  apply kt_bind; [apply kt_findM; intros; kt|]. intros p.
  apply kt_bind; [kt|]. intros _.
  apply kt_bind; [kt|]. intros _.
  apply kt_bind; [apply kt_modify; intros s0; apply orphan_children_same_timers|].
  intros _. kt.
Qed.

Lemma kt_load_nodes rnd (ws : list WireNode) : forall i, keeps_timers (load_nodes rnd i ws).
Proof. induction ws as [|w ws IH]; intros i; cbn [load_nodes]; kt. Qed.

Lemma kt_loadGraph rnd data : keeps_timers (loadGraph rnd data).
Proof.
  unfold loadGraph, loadGraph_onData. apply kt_catch_log.
  destruct (p_nodes data) as [[|w ws]|]; [kt| |kt].
  apply kt_bind; [apply kt_load_nodes|]. intros rs.
  apply kt_bind; [kt|]. intros _.
  destruct (p_links data); [|kt].
  apply kt_bind; [kt|]. intros _.
  apply kt_bind; [|intros _; kt].
  apply kt_modify. intros s.
  destruct (map (fun r : ref => n_id (heap s r)) (nodes s)); repeat split.
Qed.

Lemma kt_handleKeydown key ctrl : keeps_timers (handleKeydown key ctrl).
Proof.
  pose proof kt_deleteSelectedNode.
  unfold handleKeydown. destruct key, ctrl; cbn [andb]; kt.
Qed.

(** Every handler but the editor's change event and the expiry of a timer
    leaves the timers as they are. *)
Lemma handle_keeps_timers e :
  match e with
  | EditorChange _ | TimerFires _ => True
  | _ => keeps_timers (handle e)
  end.
Proof.
  pose proof kt_deleteSelectedNode. pose proof kt_loadGraph. pose proof kt_handleKeydown.
  destruct e; cbn [handle]; auto;
    unfold handleBackgroundClick, handleBackgroundRightClick, handleNodeClick,
      handleNodeRightClick, handleLinkClick, handleWheel, saveNoteClick,
      deleteNodeClick; kt.
Qed.

(** ** The debounced write *)

Lemma pending_after_clear s :
  debounce_inv s -> pending_without (timeout s) (timers s) = [].
Proof.
  intros [[E|(id & Et & E)] _]; rewrite E.
  - destruct (timeout s); reflexivity.
  - rewrite Et. cbn. now rewrite Nat.eqb_refl.
Qed.

Lemma editorChange_step value s :
  debounce_inv s ->
  let s' := exec (editorChange value) s in
  timers s' = [nextTimer s] /\ timeout s' = Some (nextTimer s)
  /\ editorValue s' = value /\ posted s' = posted s
  /\ selectedNode s' = selectedNode s /\ heap s' = heap s
  /\ nodes s' = nodes s /\ links s' = links s
  /\ debounce_inv s'.
Proof.
  intros H. cbv zeta. unfold exec. rewrite editorChange_run. cbn [snd].
  cbn [timers timeout editorValue posted selectedNode heap nodes links nextTimer
       set_timeout set_nextTimer set_timers set_editorValue].
  rewrite (pending_after_clear s H). cbn [app].
  repeat split.
  - right. exists (nextTimer s). split; reflexivity.
  - cbn [timeout nextTimer set_timeout set_nextTimer]. intros id [= <-]. lia.
Qed.

Lemma timerFires_keeps_debounce id s :
  debounce_inv s -> debounce_inv (exec (timerFires id) s).
Proof.
  intros H. unfold exec. rewrite timerFires_run. cbn [snd].
  destruct (existsb (Nat.eqb id) (timers s)) eqn:E; [|exact H].
  assert (Hs : forall s', timers s' = [] -> timeout s' = timeout s ->
                          nextTimer s' = nextTimer s -> debounce_inv s').
  { intros s' E1 E2 E3. split; [now left|]. rewrite E2, E3. apply H. }
  assert (Hempty : pending_without (timeout s)
                     (filter (fun j => negb (Nat.eqb j id)) (timers s)) = []).
  { destruct H as [[Et|(i & Eo & Et)] _]; rewrite Et in *.
    - discriminate.
    - cbn in E. rewrite orb_false_r in E. apply Nat.eqb_eq in E. subst i.
      cbn. rewrite Nat.eqb_refl. cbn. now destruct (timeout s). }
  destruct (selectedNode s); cbv zeta; apply Hs; cbn; auto.
Qed.

Lemma handle_keeps_debounce e s : debounce_inv s -> debounce_inv (exec (handle e) s).
Proof.
  intros H. pose proof (handle_keeps_timers e) as K.
  destruct e; cbn [handle] in *;
    try (destruct H as [H1 H2]; destruct (K s) as (E1 & E2 & E3); unfold exec;
         split; [rewrite E1, E2; exact H1 | rewrite E2, E3; exact H2]).
  - apply editorChange_step, H.
  - apply timerFires_keeps_debounce, H.
Qed.

Lemma reachable_debounce_inv s : reachable s -> debounce_inv s.
Proof.
  induction 1 as [w h | s e _ IH _].
  - split; [now left | discriminate].
  - now apply handle_keeps_debounce.
Qed.

(** In every state of a session at most one timer is pending, and it is the
    one whose id the debounce closure holds: the earlier timers of a burst of
    edits have all been cleared. *)
Theorem reachable_one_pending_write s :
  reachable s ->
  (length (timers s) <= 1)%nat
  /\ (forall id, In id (timers s) -> timeout s = Some id)
  /\ (forall id, In id (timers s) -> (id < nextTimer s)%nat).
Proof.
  intros Hr. destruct (reachable_debounce_inv s Hr) as [[E|(i & Eo & E)] Hlt]; rewrite E.
  - cbn. repeat split; try lia; intros id [].
  - cbn. repeat split; try lia; intros id [<-|[]]; auto.
Qed.

Lemma reachable_one_pending_write_witness :
  (length (timers (run_session [BackgroundClick (ctrlClickAt 100 100) [];
                                NodeClick (clickAt 100 100) 0%nat;
                                EditorChange [72%N];
                                EditorChange [72%N; 105%N]] page)) <= 1)%nat.
Proof.
  apply reachable_one_pending_write.
  apply reachable_run; [apply reach_page|].
  cbn [all_enabled enabled]. repeat split; vm_compute; auto.
Defined.

Lemma run_events_snoc (l : list (M unit)) (c : M unit) :
  forall s, run_events (l ++ [c]) s = exec c (run_events l s).
Proof. induction l as [|d l IH]; intros s; cbn; [reflexivity | apply IH]. Qed.

Lemma edits_run (vs : list jsstring) :
  forall s, debounce_inv s ->
    let s' := run_events (map editorChange vs) s in
    debounce_inv s' /\ posted s' = posted s /\ selectedNode s' = selectedNode s
    /\ heap s' = heap s /\ nodes s' = nodes s /\ links s' = links s.
Proof.
  induction vs as [|v vs IH]; intros s H; cbn [map run_events].
  - repeat split; apply H.
  - destruct (editorChange_step v s H) as (_ & _ & _ & Ep & Es & Eh & En & El & H').
    destruct (IH _ H') as (H'' & Ep' & Es' & Eh' & En' & El').
    cbv zeta. repeat split; try apply H''; congruence.
Qed.

(** A burst of changes in the editor, however long, leaves exactly one timer
    pending and writes nothing; when that timer fires, with a node selected,
    the last text of the burst becomes the node's note and exactly one body
    is posted, which carries it. *)
Theorem burst_of_edits_writes_once s (vs : list jsstring) (v : jsstring) sel :
  debounce_inv s ->
  selectedNode s = Some sel ->
  let s1 := run_events (map editorChange (vs ++ [v])) s in
  exists id,
    timers s1 = [id]
    /\ posted s1 = posted s
    /\ editorValue s1 = v
    /\ heap s1 = heap s
    /\ let s2 := exec (timerFires id) s1 in
       timers s2 = []
       /\ n_note (heap s2 sel) = v
       /\ posted s2 = posted s ++ [graphData s2]
       /\ nodes s2 = nodes s /\ links s2 = links s.
Proof.
  intros H Hsel s1.
  assert (E1 : s1 = exec (editorChange v) (run_events (map editorChange vs) s)).
  { unfold s1. rewrite map_app. cbn [map]. apply run_events_snoc. }
  destruct (edits_run vs s H) as (H0 & Ep0 & Es0 & Eh0 & En0 & El0).
  set (s0 := run_events (map editorChange vs) s) in *.
  destruct (editorChange_step v s0 H0) as (Et & Eo & Ev & Ep & Es & Eh & En & El & H1).
  rewrite <- E1 in *.
  exists (nextTimer s0).
  split; [exact Et|]. split; [congruence|]. split; [exact Ev|]. split; [congruence|].
  cbv zeta. unfold exec. rewrite timerFires_run. cbn [snd].
  rewrite Et. cbn [existsb]. rewrite Nat.eqb_refl. cbn [orb].
  rewrite Es, Es0, Hsel. cbv zeta.
  cbn [timers heap posted nodes links set_posted set_note set_heap set_timers].
  rewrite Eo. cbn [filter pending_without]. rewrite Nat.eqb_refl. cbn [negb filter].
  rewrite store_same. cbn [n_note].
  repeat split; try congruence.
  rewrite Ep, Ep0. reflexivity.
Qed.

Lemma burst_of_edits_writes_once_witness :
  exists id,
    timers (run_events (map editorChange ([[72%N]] ++ [[72%N; 105%N]])) rootSelected) = [id]
    /\ posted (run_events (map editorChange ([[72%N]] ++ [[72%N; 105%N]])) rootSelected)
       = posted rootSelected.
Proof.
  assert (H : debounce_inv rootSelected) by (split; [now left | discriminate]).
  assert (Hsel : selectedNode rootSelected = Some 0%nat) by reflexivity.
  destruct (burst_of_edits_writes_once rootSelected [[72%N]] [72%N; 105%N] 0%nat H Hsel)
    as (id & Et & Ep & _).
  exists id. split; [exact Et | exact Ep].
Defined.






(** * Creating nodes and links from the pointer *)

(** A ctrl-click on the background creates one root node with the template
    note, no parent and the id the counter holds, and leaves the links alone;
    the counter goes up by one while it is a safe integer, and at 2^53 it
    stays, so that the next node gets the same id.  When the scale of the
    view is not 0, the view's transform puts the new node exactly under the
    pointer. *)
Theorem ctrl_click_creates_root_under_pointer ev now s :
  targetIsSvg ev = true -> ctrlKey ev = true ->
  ~ t_k (currentTransform s) == 0 ->
  let s' := exec (handleBackgroundClick ev now) s in
  let r := nextRef s in
  nodes s' = nodes s ++ [r]
  /\ links s' = links s
  /\ (safe_integer (nextId s) -> nextId s' = (nextId s + 1)%Z)
  /\ (nextId s = two53 -> nextId s' = nextId s)
  /\ n_id (heap s' r) = nextId s
  /\ n_type (heap s' r) = root
  /\ n_note (heap s' r) = rootNoteTemplate
  /\ n_parentId (heap s' r) = None
  /\ n_children (heap s' r) = []
  /\ same_point (worldToScreen (currentTransform s) (n_x (heap s' r), n_y (heap s' r)))
                (pointer ev).
Proof.
  intros Hsvg Hctrl Hk s' r.
  assert (E : s' = exec (createNode (fst (getSVGCoordinates ev s))
                           (snd (getSVGCoordinates ev s)) root None now) s).
  { unfold s', exec, handleBackgroundClick. rewrite Hsvg, Hctrl. reflexivity. }
  destruct (createNode_fields (fst (getSVGCoordinates ev s))
              (snd (getSVGCoordinates ev s)) root None now s)
    as (_ & En & El & _ & Ei & _ & Hnew & _).
  rewrite <- E in *. fold r in Hnew. rewrite Hnew. cbn [freshNode n_id n_type n_note
    n_parentId n_children n_x n_y NodeType_eqb].
  split; [exact En|]. split; [exact El|].
  split; [intros Hs; rewrite Ei; exact (number_add_safe Hs)|].
  split; [intros E53; rewrite Ei, E53; exact number_add_two53|].
  do 5 (split; [reflexivity|]).
  split; unfold worldToScreen, pointer, getSVGCoordinates; cbn [fst snd];
    field; exact Hk.
Qed.

Lemma ctrl_click_creates_root_under_pointer_witness :
  nodes oneRoot = [0%nat]
  /\ nextId oneRoot = 2%Z
  /\ same_point (worldToScreen (currentTransform page)
                   (n_x (heap oneRoot 0%nat), n_y (heap oneRoot 0%nat)))
                (pointer (ctrlClickAt 100 100)).
Proof.
  assert (Hk : ~ t_k (currentTransform page) == 0) by (vm_compute; discriminate).
  destruct (ctrl_click_creates_root_under_pointer (ctrlClickAt 100 100) [] page
              eq_refl eq_refl Hk) as (En & _ & Ei & _ & _ & _ & _ & _ & _ & Hp).
  split; [exact En|]. split; [|exact Hp].
  apply Ei. vm_compute. split; reflexivity.
Defined.








(** * Keys and clicks that leave the graph alone *)

(** The Delete key and the delete button never change the state: with no
    node selected the handler returns at once, and with a node selected the
    Delete key makes it throw before its first write. *)
Theorem delete_key_leaves_state ctrl s :
  handleKeydown KeyDelete ctrl s
  = (match selectedNode s with
     | Some _ => Throw TypeError
     | None => Normal tt
     end, s)
  /\ (selectedNode s = None -> deleteNodeClick s = (Normal tt, s)).
Proof.
  split.
  - unfold handleKeydown, bind, ret, get. destruct ctrl; cbn [andb]; cbv beta iota;
      (destruct (selectedNode s) eqn:E; [|reflexivity]);
      unfold deleteSelectedNode, bind, get, throw; cbv beta iota; now rewrite E.
  - intros E. unfold deleteNodeClick, deleteSelectedNode, bind, get. cbv beta iota.
    now rewrite E.
Qed.

Lemma delete_key_leaves_state_witness :
  handleKeydown KeyDelete false rootSelected = (Throw TypeError, rootSelected)
  /\ deleteNodeClick page = (Normal tt, page).
Proof.
  destruct (delete_key_leaves_state false rootSelected) as [Hkey _].
  destruct (delete_key_leaves_state false page) as [_ Hbutton].
  split; [exact Hkey | exact (Hbutton eq_refl)].
Defined.




(** Ctrl with a right-click on the background does what a ctrl-click on the
    svg does, a new root node under the pointer, unless a node is dragged or
    the view is panned; without Ctrl, or during a drag or a pan, it does
    nothing. *)
Theorem background_right_click ev now s :
  (ctrlKey ev = false \/ isDragging s = true \/ isPanning s = true ->
   handleBackgroundRightClick ev now s = (Normal tt, s))
  /\ (ctrlKey ev = true -> isDragging s = false -> isPanning s = false ->
      targetIsSvg ev = true ->
      handleBackgroundRightClick ev now s = handleBackgroundClick ev now s
      /\ nodes (exec (handleBackgroundRightClick ev now) s) = nodes s ++ [nextRef s]).
Proof.
  split.
  - intros H. unfold handleBackgroundRightClick.
    destruct (ctrlKey ev); [|reflexivity]. step_get.
    destruct H as [H|[H|H]]; [discriminate | |]; rewrite H;
      [|rewrite orb_true_r]; reflexivity.
  - intros Hc Hd Hp Hs.
    assert (E : handleBackgroundRightClick ev now s = handleBackgroundClick ev now s).
    { unfold handleBackgroundRightClick, handleBackgroundClick.
      rewrite Hc, Hs. cbn [negb]. step_get. rewrite Hd, Hp. reflexivity. }
    split; [exact E|].
    unfold exec. rewrite E. unfold handleBackgroundClick. rewrite Hc, Hs. reflexivity.
Qed.

Lemma background_right_click_witness :
  handleBackgroundRightClick (ctrlClickAt 100 100) [] page
  = handleBackgroundClick (ctrlClickAt 100 100) [] page.
Proof.
  destruct (background_right_click (ctrlClickAt 100 100) [] page) as [_ H].
  exact (proj1 (H eq_refl eq_refl eq_refl eq_refl)).
Defined.

(** * Saving and loading *)

Lemma loaded_heap rnd s w ws ls :
  map (heap (loaded rnd s w ws ls)) (nodes (loaded rnd s w ws ls))
  = nodes_of_wire rnd s 0 (w :: ws).
Proof.
  unfold loaded. cbv zeta.
  cbn [nodes heap set_alpha set_nextId set_links set_nodes set_nextRef set_heap].
  rewrite <- (nodes_of_wire_length rnd s (w :: ws) 0) at 1.
  apply store_all_seq.
Qed.

Lemma loaded_links rnd s w ws ls :
  map (wire_of_link (loaded rnd s w ws ls)) (links (loaded rnd s w ws ls))
  = map normal_link
      (filter (fun l => resolves_in (map w_id (w :: ws)) (w_source l)
                        && resolves_in (map w_id (w :: ws)) (w_target l)) ls).
Proof.
  unfold loaded. cbv zeta. set (s1 := set_nodes _ _).
  assert (Hheap : map (heap s1) (nodes s1) = nodes_of_wire rnd s 0 (w :: ws)).
  { unfold s1. cbn [nodes heap set_nodes set_nextRef set_heap].
    rewrite <- (nodes_of_wire_length rnd s (w :: ws) 0) at 1.
    apply store_all_seq. }
  assert (Hids : node_ids s1 = map w_id (w :: ws)).
  { unfold node_ids. rewrite <- (map_map (heap s1) n_id), Hheap.
    apply nodes_of_wire_ids. }
  clearbody s1. cbn [links set_alpha set_nextId set_links].
  rewrite <- Hids. apply (keep_resolved_wire s1 ls).
Qed.

Lemma node_of_wire_of_node rnd s0 i (n : Node) :
  Qeq_bool (n_x n) 0 = false -> Qeq_bool (n_y n) 0 = false ->
  n_parentId n <> Some 0%Z ->
  wire_of_node (node_of_wire rnd s0 i (wire_of_node n)) = wire_of_node n.
Proof.
  intros Hx Hy Hp. unfold node_of_wire, wire_of_node.
  cbn [w_id w_type w_note w_x w_y w_createdAt w_parentId w_children num_or
       n_id n_type n_note n_x n_y n_createdAt n_parentId n_children].
  rewrite Hx, Hy. destruct (n_parentId n) as [p|]; [|reflexivity].
  destruct (Z.eqb_spec p 0) as [->|_]; [congruence | reflexivity].
Qed.

Lemma nodes_of_wire_of_nodes rnd s0 (ns : list Node) :
  (forall n, In n ns -> Qeq_bool (n_x n) 0 = false /\ Qeq_bool (n_y n) 0 = false
                        /\ n_parentId n <> Some 0%Z) ->
  forall i, map wire_of_node (nodes_of_wire rnd s0 i (map wire_of_node ns))
            = map wire_of_node ns.
Proof.
  induction ns as [|n ns IH]; intros H i; cbn [map nodes_of_wire]; [reflexivity|].
  destruct (H n (or_introl eq_refl)) as (Hx & Hy & Hp).
  rewrite node_of_wire_of_node by assumption.
  rewrite IH; [reflexivity|]. intros m Hm. apply H. now right.
Qed.

(** Round trip: when no coordinate and no [parentId] of the graph is 0 and
    the links join nodes of the graph, the body [saveGraph] writes, loaded
    into any state, gives a graph that [saveGraph] writes as the same body:
    no node and no link is lost or changed. *)
Theorem save_then_load_round_trip rnd s s0 :
  saveable s ->
  graphData (exec (loadGraph rnd (graphData s)) s0) = graphData s.
Proof.
  intros (Hne & Hnodes & Hlinks).
  destruct (nodes s) as [|r rs] eqn:En; [congruence|]. clear Hne.
  set (w := wire_of_node (heap s r)).
  set (ws := map (fun r0 => wire_of_node (heap s r0)) rs).
  set (ls := map (wire_of_link s) (links s)).
  assert (Eg : graphData s = mkPayload (Some (w :: ws)) (Some ls)).
  { unfold graphData. now rewrite En. }
  rewrite Eg. unfold exec. rewrite loadGraph_run. cbn [snd].
  unfold graphData. f_equal; f_equal.
  - rewrite <- (map_map (heap (loaded rnd s0 w ws ls)) wire_of_node), loaded_heap.
    assert (Ew : w :: ws = map wire_of_node (map (heap s) (r :: rs))).
    { unfold w, ws. cbn [map]. now rewrite map_map. }
    rewrite Ew. apply nodes_of_wire_of_nodes.
    intros n Hn. apply in_map_iff in Hn. destruct Hn as (r' & <- & Hr').
    now apply Hnodes.
  - rewrite loaded_links.
    assert (Hids : map w_id (w :: ws) = node_ids s).
    { unfold node_ids. rewrite En. unfold w, ws. cbn [map]. now rewrite map_map. }
    rewrite Hids. unfold ls.
    assert (Hall : forall l, In l (links s) ->
              resolves_in (node_ids s) (w_source (wire_of_link s l))
              && resolves_in (node_ids s) (w_target (wire_of_link s l)) = true).
    { intros l Hl. destruct (Hlinks l Hl) as [Ha Hb].
      unfold wire_of_link. cbn [w_source w_target]. now rewrite Ha, Hb. }
    rewrite forallb_filter_id.
    + rewrite map_map. apply map_ext. reflexivity.
    + apply forallb_forall. intros wl Hwl. apply in_map_iff in Hwl.
      destruct Hwl as (l & <- & Hl). now apply Hall.
Qed.

Lemma save_then_load_round_trip_witness :
  graphData (exec (loadGraph (fun _ => 0) (graphData childSpawned)) page)
  = graphData childSpawned.
Proof.
  apply save_then_load_round_trip. split; [discriminate|]. split.
  - intros r [<-|[<-|[]]]; vm_compute; repeat split; discriminate.
  - intros l [<-|[]]. vm_compute. auto.
Defined.

(** A body with nodes but without a links array: the error raised on
    [data.links.map] is caught and logged, after the node set has been
    replaced; the links and the next-id counter are those of before, so the
    links join node objects that are no longer in the node set. *)
Theorem load_without_links_replaces_nodes_only rnd s w ws :
  let data := mkPayload (Some (w :: ws)) None in
  let s' := exec (loadGraph rnd data) s in
  result (loadGraph_onData rnd data) s = Throw TypeError
  /\ result (loadGraph rnd data) s = Normal tt
  /\ map (heap s') (nodes s') = nodes_of_wire rnd s 0 (w :: ws)
  /\ links s' = links s
  /\ nextId s' = nextId s
  /\ (forall r, (r < nextRef s)%nat -> ~ In r (nodes s')).
Proof.
  cbv zeta.
  assert (E : loadGraph_onData rnd (mkPayload (Some (w :: ws)) None) s
              = (Throw TypeError,
                 set_nodes (seq (nextRef s) (S (length ws)))
                   (set_nextRef (nextRef s + S (length ws))%nat
                      (set_heap (store_all (nextRef s) (nodes_of_wire rnd s 0 (w :: ws))
                                   (heap s)) s)))).
  { unfold loadGraph_onData. cbn [p_nodes p_links].
    unfold bind at 1. rewrite load_nodes_run. reflexivity. }
  unfold exec, result, loadGraph, catch_log. rewrite E. cbn [fst snd].
  split; [reflexivity|]. split; [reflexivity|].
  cbn [nodes heap links nextId set_nodes set_nextRef set_heap].
  split.
  { rewrite <- (nodes_of_wire_length rnd s (w :: ws) 0) at 1. apply store_all_seq. }
  split; [reflexivity|]. split; [reflexivity|].
  intros r Hr Hin. apply in_seq in Hin. lia.
Qed.

Lemma load_without_links_replaces_nodes_only_witness :
  let data := mkPayload (Some [wire_of_node (heap childSpawned 0%nat)]) None in
  let s' := exec (loadGraph (fun _ => 0) data) childSpawned in
  length (links s') = 1%nat /\ nextId s' = 3%Z /\ ~ In 1%nat (nodes s').
Proof.
  cbv zeta.
  destruct (load_without_links_replaces_nodes_only (fun _ => 0) childSpawned
              (wire_of_node (heap childSpawned 0%nat)) [])
    as (_ & _ & _ & El & Ei & Hold).
  cbv zeta in El, Ei, Hold.
  split; [rewrite El; reflexivity|]. split; [rewrite Ei; reflexivity|].
  apply Hold. vm_compute. lia.
Defined.

(** * The viewport *)

Lemma translate_x (t : Transform) (x y : Q) :
  t_x (translate t x y) == t_x t + t_k t * x.
Proof.
  unfold translate. destruct (Qeq_bool x 0) eqn:Ex; destruct (Qeq_bool y 0) eqn:Ey;
    cbn [andb t_x]; try reflexivity.
  apply Qeq_bool_iff in Ex. rewrite Ex. ring.
Qed.

Lemma translate_y (t : Transform) (x y : Q) :
  t_y (translate t x y) == t_y t + t_k t * y.
Proof.
  unfold translate. destruct (Qeq_bool x 0) eqn:Ex; destruct (Qeq_bool y 0) eqn:Ey;
    cbn [andb t_y]; try reflexivity.
  apply Qeq_bool_iff in Ey. rewrite Ey. ring.
Qed.

Lemma scale_x (t : Transform) (k : Q) : t_x (scale t k) = t_x t.
Proof. unfold scale. destruct (Qeq_bool k 1); reflexivity. Qed.

Lemma scale_y (t : Transform) (k : Q) : t_y (scale t k) = t_y t.
Proof. unfold scale. destruct (Qeq_bool k 1); reflexivity. Qed.

Lemma clampedScale_range ev t :
  CONFIG.zoomMin <= clampedScale ev t <= CONFIG.zoomMax.
Proof.
  unfold clampedScale. split.
  - apply Q.le_max_l.
  - apply Q.max_lub.
    + unfold CONFIG.zoomMin, CONFIG.zoomMax. discriminate.
    + apply Q.le_min_l.
Qed.

Lemma wheelTransform_fields ev t :
  ~ t_k t == 0 ->
  let c := clampedScale ev t in
  t_k (wheelTransform ev t) == t_k t * c
  /\ t_x (wheelTransform ev t)
     == t_x t + t_k t * fst (pointer ev) - (fst (pointer ev) - t_x t) * c
  /\ t_y (wheelTransform ev t)
     == t_y t + t_k t * snd (pointer ev) - (snd (pointer ev) - t_y t) * c.
Proof.
  intros Hk c. unfold wheelTransform. fold (clampedScale ev t). fold c.
  rewrite scale_scale, translate_scale, scale_x, scale_y, translate_x, translate_y.
  unfold pointer. cbn [fst snd].
  split; [reflexivity|]. split; field; exact Hk.
Qed.

(** One wheel step multiplies the scale by the clamped scale, a factor
    between 0.1 and 5; while the current scale times the step factor (0.9 or
    1.1) is within the zoom range, that is the current scale squared times
    the step factor. *)
Theorem wheel_step_squares_scale ev t :
  let factor : Q := if Qgt_bool (deltaY ev) 0 then 9 # 10 else 11 # 10 in
  CONFIG.zoomMin <= clampedScale ev t <= CONFIG.zoomMax
  /\ t_k (wheelTransform ev t) == t_k t * clampedScale ev t
  /\ (CONFIG.zoomMin <= t_k t * factor <= CONFIG.zoomMax ->
      t_k (wheelTransform ev t) == t_k t * t_k t * factor).
Proof.
  intros factor. split; [apply clampedScale_range|].
  assert (E : t_k (wheelTransform ev t) == t_k t * clampedScale ev t).
  { unfold wheelTransform. fold (clampedScale ev t).
    now rewrite scale_scale, translate_scale. }
  split; [exact E|]. intros [Hlo Hhi]. rewrite E.
  unfold clampedScale. fold factor.
  rewrite (Q.min_r _ _ Hhi), (Q.max_r _ _ Hlo). ring.
Qed.

Lemma wheel_step_squares_scale_witness :
  t_k (wheelTransform (wheelUpAt 100 100) (mkTransform 2 0 0)) == 2 * 2 * (11 # 10).
Proof.
  destruct (wheel_step_squares_scale (wheelUpAt 100 100) (mkTransform 2 0 0))
    as (_ & _ & H).
  apply H. split; vm_compute; discriminate.
Defined.

(** For a view that scales about the pointer's position (as the identity
    does about every point) a wheel step gives again a view that scales
    about that position, and the world point under the pointer is the same
    before and after; so wheel steps at one fixed position, starting from
    the identity, keep the point under the pointer. *)
Theorem wheel_step_keeps_anchor_of_scaling ev t :
  scales_about (pointer ev) t ->
  scales_about (pointer ev) (wheelTransform ev t)
  /\ same_point (screenToWorld (wheelTransform ev t) ev) (screenToWorld t ev)
  /\ same_point (screenToWorld t ev) (pointer ev)
  /\ scales_about (pointer ev) zoomIdentity.
Proof.
  intros (Hk & Hx & Hy).
  destruct (wheelTransform_fields ev t Hk) as (Ek & Ex & Ey). cbv zeta in *.
  pose proof (clampedScale_range ev t) as [Hlo _].
  set (c := clampedScale ev t) in *. unfold CONFIG.zoomMin in Hlo.
  set (px := fst (pointer ev)) in *. set (py := snd (pointer ev)) in *.
  assert (Hk' : ~ t_k (wheelTransform ev t) == 0).
  { rewrite Ek. intros E. apply Qmult_integral in E. destruct E as [E|E]; [auto|].
    rewrite E in Hlo. apply Hlo. reflexivity. }
  assert (Hx' : t_x (wheelTransform ev t) == px * (1 - t_k (wheelTransform ev t))).
  { rewrite Ex, Ek, Hx. ring. }
  assert (Hy' : t_y (wheelTransform ev t) == py * (1 - t_k (wheelTransform ev t))).
  { rewrite Ey, Ek, Hy. ring. }
  assert (Hworld : forall u, ~ t_k u == 0 -> t_x u == px * (1 - t_k u) ->
                             t_y u == py * (1 - t_k u) ->
                             same_point (screenToWorld u ev) (pointer ev)).
  { intros u Hu Hux Huy. unfold same_point, screenToWorld. cbn [fst snd].
    change (clientX ev - rect_left ev) with px.
    change (clientY ev - rect_top ev) with py.
    rewrite Hux, Huy. fold px py. split; field; exact Hu. }
  pose proof (Hworld t Hk Hx Hy) as [W1 W2].
  pose proof (Hworld _ Hk' Hx' Hy') as [W1' W2'].
  split; [repeat split; assumption|].
  split; [split; [now rewrite W1', W1 | now rewrite W2', W2]|].
  split; [split; assumption|].
  unfold scales_about, zoomIdentity. cbn [t_k t_x t_y].
  split; [discriminate|]. split; ring.
Qed.

Lemma wheel_step_keeps_anchor_of_scaling_witness :
  same_point (screenToWorld (wheelTransform (wheelUpAt 100 40) zoomIdentity)
                (wheelUpAt 100 40))
             (screenToWorld zoomIdentity (wheelUpAt 100 40)).
Proof.
  assert (H : scales_about (pointer (wheelUpAt 100 40)) zoomIdentity).
  { split; [vm_compute; discriminate|]. split; vm_compute; reflexivity. }
  exact (proj1 (proj2 (wheel_step_keeps_anchor_of_scaling (wheelUpAt 100 40) zoomIdentity H))).
Defined.

(** * Panning and dragging *)

Lemma currentTransform_applyZoom (t : Transform) (s : State) :
  currentTransform (applyZoom t s) = t.
Proof. reflexivity. Qed.

Lemma last_cons_default {A : Type} (l : list A) (a d d' : A) :
  last (a :: l) d = last (a :: l) d'.
Proof.
  revert a. induction l as [|x l IH]; intros a; [reflexivity|].
  change (last (a :: x :: l) d) with (last (x :: l) d).
  change (last (a :: x :: l) d') with (last (x :: l) d'). apply IH.
Qed.

Lemma pan_move ev u :
  isPanning (app u) = true -> isDragging (app u) = false ->
  let u' := handleGlobalMouseMove ev u in
  let t := currentTransform (app u) in
  let t' := currentTransform (app u') in
  t_k t' = t_k t
  /\ t_x t' == t_x t + t_k t * (clientX ev - panStartX u)
  /\ t_y t' == t_y t + t_k t * (clientY ev - panStartY u)
  /\ panStartX u' = clientX ev /\ panStartY u' = clientY ev
  /\ isPanning (app u') = true /\ isDragging (app u') = false
  /\ nodes (app u') = nodes (app u) /\ links (app u') = links (app u)
  /\ heap (app u') = heap (app u).
Proof.
  intros Hp Hd. cbv zeta. unfold handleGlobalMouseMove. rewrite Hd, Hp.
  cbn [app panStartX panStartY set_panStart set_app].
  rewrite !currentTransform_applyZoom.
  rewrite translate_scale. rewrite translate_x, translate_y.
  repeat split; try reflexivity; assumption.
Qed.

(** A pan gesture: the left button goes down on the background at [ev0],
    the pointer moves through [evs] and the button is released.  The scale of
    the view is unchanged and its translation has moved by the scale times
    the displacement of the pointer, not by the displacement itself; the
    graph is untouched and panning has ended.  Another button, or a press on
    a node, starts no pan.  (The listeners d3-zoom installs on the svg are
    handlers of their own and are not part of these three.) *)
Theorem pan_gesture_translates_by_scaled_displacement ev0 (evs : list PointerEvent) u :
  isDragging (app u) = false ->
  let t0 := currentTransform (app u) in
  let u3 := handleGlobalMouseUp (mouseMoves evs (handleSvgMouseDown ev0 0 false u)) in
  let t3 := currentTransform (app u3) in
  let final := last evs ev0 in
  t_k t3 = t_k t0
  /\ t_x t3 == t_x t0 + t_k t0 * (clientX final - clientX ev0)
  /\ t_y t3 == t_y t0 + t_k t0 * (clientY final - clientY ev0)
  /\ isPanning (app u3) = false
  /\ nodes (app u3) = nodes (app u) /\ links (app u3) = links (app u)
  /\ heap (app u3) = heap (app u)
  /\ (forall button, button <> 0%Z -> handleSvgMouseDown ev0 button false u = u)
  /\ (forall button, handleSvgMouseDown ev0 button true u = u).
Proof.
  intros Hd. cbv zeta.
  set (u1 := handleSvgMouseDown ev0 0 false u).
  assert (Inv : forall evs u',
            isPanning (app u') = true -> isDragging (app u') = false ->
            let u2 := mouseMoves evs u' in
            let final := last evs (mkPointerEvent (panStartX u') (panStartY u') 0 0 0 false false) in
            t_k (currentTransform (app u2)) = t_k (currentTransform (app u'))
            /\ t_x (currentTransform (app u2))
               == t_x (currentTransform (app u'))
                  + t_k (currentTransform (app u')) * (clientX final - panStartX u')
            /\ t_y (currentTransform (app u2))
               == t_y (currentTransform (app u'))
                  + t_k (currentTransform (app u')) * (clientY final - panStartY u')
            /\ isPanning (app u2) = true /\ isDragging (app u2) = false
            /\ nodes (app u2) = nodes (app u') /\ links (app u2) = links (app u')
            /\ heap (app u2) = heap (app u')).
  { clear. induction evs as [|ev evs IH]; intros u' Hp Hd.
    - cbn. repeat split; try assumption; ring.
    - destruct (pan_move ev u' Hp Hd) as (Ek & Ex & Ey & Epx & Epy & Hp' & Hd' & En & El & Eh).
      cbv zeta in *.
      destruct (IH (handleGlobalMouseMove ev u') Hp' Hd')
        as (Ek2 & Ex2 & Ey2 & Hp2 & Hd2 & En2 & El2 & Eh2).
      cbv zeta in *. unfold mouseMoves in *. cbn [fold_left].
      rewrite Epx, Epy in *.
      assert (Elast : forall e : PointerEvent -> Q,
                e (last (ev :: evs) (mkPointerEvent (panStartX u') (panStartY u') 0 0 0 false false))
                = e (last evs (mkPointerEvent (clientX ev) (clientY ev) 0 0 0 false false))
                   \/ (evs = [] /\ True)).
      { intros e. destruct evs as [|ev' evs']; [right; auto | left].
        f_equal. change (last (ev :: ev' :: evs') ?d) with (last (ev' :: evs') d).
        apply last_cons_default. }
      split; [congruence|].
      split; [|split; [|repeat split; congruence]].
      + rewrite Ex2, Ek, Ex.
        destruct (Elast clientX) as [E|[-> _]]; [rewrite E | cbn]; ring.
      + rewrite Ey2, Ek, Ey.
        destruct (Elast clientY) as [E|[-> _]]; [rewrite E | cbn]; ring. }
  assert (H1 : isPanning (app u1) = true) by reflexivity.
  assert (H1d : isDragging (app u1) = false) by exact Hd.
  destruct (Inv evs u1 H1 H1d) as (Ek & Ex & Ey & Hp & Hd2 & En & El & Eh).
  cbv zeta in *. clear Inv.
  set (u2 := mouseMoves evs u1) in *.
  assert (E3 : handleGlobalMouseUp u2 = set_app (set_isPanning false (app u2)) u2).
  { unfold handleGlobalMouseUp. rewrite Hd2, Hp. reflexivity. }
  rewrite E3. cbn [app set_app].
  change (currentTransform (set_isPanning false (app u2))) with (currentTransform (app u2)).
  change (currentTransform (app u1)) with (currentTransform (app u)) in *.
  change (panStartX u1) with (clientX ev0) in *.
  change (panStartY u1) with (clientY ev0) in *.
  assert (Elast : last evs (mkPointerEvent (clientX ev0) (clientY ev0) 0 0 0 false false)
                  = last evs ev0 \/ evs = []).
  { destruct evs as [|e l]; [now right | left]. apply last_cons_default. }
  split; [exact Ek|].
  split; [|split; [|split; [reflexivity|]]].
  - rewrite Ex. destruct Elast as [E| ->]; [rewrite E; reflexivity | cbn; ring].
  - rewrite Ey. destruct Elast as [E| ->]; [rewrite E; reflexivity | cbn; ring].
  - split; [exact En|]. split; [exact El|]. split; [exact Eh|].
    split.
    + intros button Hb. unfold handleSvgMouseDown.
      destruct (Z.eqb_spec button 0); [contradiction | reflexivity].
    + reflexivity.
Qed.

Lemma pan_gesture_translates_by_scaled_displacement_witness :
  let u := mkSession (set_zoom (mkTransform 2 0 0) page) None 0 0 0 in
  let u3 := handleGlobalMouseUp
              (mouseMoves [clickAt 20 10; clickAt 40 30]
                 (handleSvgMouseDown (clickAt 10 10) 0 false u)) in
  t_k (currentTransform (app u3)) = 2
  /\ t_x (currentTransform (app u3)) == 60
  /\ t_y (currentTransform (app u3)) == 40.
Proof.
  cbv zeta.
  destruct (pan_gesture_translates_by_scaled_displacement
              (clickAt 10 10) [clickAt 20 10; clickAt 40 30]
              (mkSession (set_zoom (mkTransform 2 0 0) page) None 0 0 0) eq_refl)
    as (Ek & Ex & Ey & _).
  split; [exact Ek|]. split; [rewrite Ex | rewrite Ey]; reflexivity.
Defined.

Lemma set_fixed_heap r fx fy s :
  heap (set_fixed r fx fy s) = store r (with_fixed (heap s r) fx fy) (heap s).
Proof. reflexivity. Qed.

Lemma with_fixed_twice n fx fy fx' fy' :
  with_fixed (with_fixed n fx fy) fx' fy' = with_fixed n fx' fy'.
Proof. reflexivity. Qed.

Lemma with_fixed_same n :
  n_fx n = None -> n_fy n = None -> with_fixed n None None = n.
Proof. destruct n; cbn. intros -> ->. reflexivity. Qed.

(** The state of a drag of node [d] that began in [u]: dragging is on, the
    graph is that of [u] except for the pinned position of [d]. *)
Record drag_in_progress (d : ref) (u u' : Session) : Prop := {
  dip_dragging : isDragging (app u') = true;
  dip_node : draggedNode u' = Some d;
  dip_panning : isPanning (app u') = false;
  dip_zoom : zoomTransform (app u') = zoomTransform (app u);
  dip_nodes : nodes (app u') = nodes (app u);
  dip_links : links (app u') = links (app u);
  dip_others : forall r, r <> d -> heap (app u') r = heap (app u) r;
  dip_pinned : exists fx fy, heap (app u') d = with_fixed (heap (app u) d) fx fy
}.

Lemma drag_move d u u' ev :
  drag_in_progress d u u' ->
  drag_in_progress d u (handleGlobalMouseMove ev u')
  /\ n_fx (heap (app (handleGlobalMouseMove ev u')) d)
     = Some (fst (getSVGCoordinates ev (app u)))
  /\ n_fy (heap (app (handleGlobalMouseMove ev u')) d)
     = Some (snd (getSVGCoordinates ev (app u))).
Proof.
  intros [Hd Hn Hp Hz En El Ho (fx & fy & Ed)].
  assert (Ec : getSVGCoordinates ev (app u') = getSVGCoordinates ev (app u)).
  { unfold getSVGCoordinates, currentTransform. rewrite Hz. reflexivity. }
  assert (E : handleGlobalMouseMove ev u'
              = set_app (set_fixed d (Some (fst (getSVGCoordinates ev (app u))))
                           (Some (snd (getSVGCoordinates ev (app u)))) (app u')) u').
  { unfold handleGlobalMouseMove. rewrite Hd, Hn. cbv zeta. rewrite Ec.
    cbn [app set_app]. 
    change (isPanning (set_fixed d ?a ?b (app u'))) with (isPanning (app u')).
    rewrite Hp. reflexivity. }
  rewrite E. cbn [app set_app]. rewrite set_fixed_heap, store_same.
  split; [|split; reflexivity].
  constructor; cbn [app set_app draggedNode]; try assumption.
  - intros r Hr. rewrite set_fixed_heap, store_other by congruence. apply Ho, Hr.
  - rewrite set_fixed_heap, store_same, Ed, with_fixed_twice. eauto.
Qed.

Lemma drag_moves d u evs :
  forall u', drag_in_progress d u u' -> drag_in_progress d u (mouseMoves evs u').
Proof.
  unfold mouseMoves. induction evs as [|ev evs IH]; intros u' H; [exact H|].
  cbn [fold_left]. apply IH. apply (drag_move d u u' ev H).
Qed.

(** A drag gesture on node [d]: the left button goes down on the node, the
    pointer moves through [evs] and then to [ev], and the button is released.
    While the button is down the node is pinned, first at its own position
    and after each move at the world point under the pointer; on release the
    pin is removed, dragging has ended and the simulation's target is back
    to 0.  The handlers write nothing but [fx] and [fy] of that node (moving
    it to the pin is left to the simulation): the node list, the links, the
    view and every other node are untouched, and a node that had no pin
    before the gesture is exactly as it was.  Another button starts no
    drag. *)
Theorem drag_gesture_pins_then_releases d (evs : list PointerEvent) ev u :
  isPanning (app u) = false ->
  let u1 := handleNodeMouseDown 0 d u in
  let u2 := handleGlobalMouseMove ev (mouseMoves evs u1) in
  let u3 := handleGlobalMouseUp u2 in
  (n_fx (heap (app u1) d) = Some (n_x (heap (app u) d))
   /\ n_fy (heap (app u1) d) = Some (n_y (heap (app u) d))
   /\ alphaTarget u1 = 3 # 10)
  /\ (n_fx (heap (app u2) d) = Some (fst (getSVGCoordinates ev (app u)))
      /\ n_fy (heap (app u2) d) = Some (snd (getSVGCoordinates ev (app u)))
      /\ n_x (heap (app u2) d) = n_x (heap (app u) d)
      /\ n_y (heap (app u2) d) = n_y (heap (app u) d))
  /\ (isDragging (app u3) = false /\ draggedNode u3 = None /\ alphaTarget u3 = 0
      /\ heap (app u3) d = with_fixed (heap (app u) d) None None
      /\ (forall r, r <> d -> heap (app u3) r = heap (app u) r)
      /\ nodes (app u3) = nodes (app u) /\ links (app u3) = links (app u)
      /\ zoomTransform (app u3) = zoomTransform (app u)
      /\ (n_fx (heap (app u) d) = None -> n_fy (heap (app u) d) = None ->
          forall r, heap (app u3) r = heap (app u) r))
  /\ (forall button, button <> 0%Z -> handleNodeMouseDown button d u = u).
Proof.
  intros Hp. cbv zeta.
  set (u1 := handleNodeMouseDown 0 d u).
  assert (H1 : drag_in_progress d u u1).
  { constructor; try reflexivity; try exact Hp.
    - intros r Hr. subst u1. cbn. rewrite store_other by congruence. reflexivity.
    - subst u1. cbn. rewrite store_same. eexists _, _. reflexivity. }
  pose proof (drag_moves d u evs u1 H1) as H2.
  destruct (drag_move d u (mouseMoves evs u1) ev H2) as (H3 & Efx & Efy).
  set (u2 := handleGlobalMouseMove ev (mouseMoves evs u1)) in *.
  destruct H3 as [Hd Hn Hp2 Hz En El Ho (fx & fy & Ed)].
  split.
  { subst u1. cbn. rewrite store_same. cbn. auto. }
  split.
  { split; [exact Efx|]. split; [exact Efy|]. rewrite Ed. split; reflexivity. }
  split.
  - assert (E3 : handleGlobalMouseUp u2
                 = set_draggedNode None
                     (set_app (set_isDragging false (set_fixed d None None (app u2)))
                        (set_alphaTarget 0 u2))).
    { unfold handleGlobalMouseUp. rewrite Hd, Hn. cbv zeta.
      cbn [app set_app set_draggedNode set_alphaTarget].
      change (isPanning (set_isDragging false (set_fixed d None None (app u2))))
        with (isPanning (app u2)).
      rewrite Hp2. reflexivity. }
    rewrite E3. cbn [app set_app set_draggedNode set_alphaTarget draggedNode alphaTarget].
    change (heap (set_isDragging false ?s)) with (heap s).
    rewrite set_fixed_heap.
    assert (Ehd : store d (with_fixed (heap (app u2) d) None None) (heap (app u2)) d
                  = with_fixed (heap (app u) d) None None).
    { rewrite store_same, Ed. reflexivity. }
    assert (Eho : forall r, r <> d ->
                    store d (with_fixed (heap (app u2) d) None None) (heap (app u2)) r
                    = heap (app u) r).
    { intros r Hr. rewrite store_other by congruence. apply Ho, Hr. }
    split; [reflexivity|]. split; [reflexivity|]. split; [reflexivity|].
    split; [exact Ehd|]. split; [exact Eho|].
    split; [exact En|]. split; [exact El|]. split; [exact Hz|].
    intros Hfx Hfy r. destruct (Nat.eq_dec r d) as [->|Hr].
    + rewrite Ehd. apply with_fixed_same; assumption.
    + apply Eho, Hr.
  - intros button Hb. unfold handleNodeMouseDown.
    destruct (Z.eqb_spec button 0); [contradiction | reflexivity].
Qed.

Lemma drag_gesture_pins_then_releases_witness :
  let u := mkSession oneRoot None 0 0 0 in
  let u2 := handleGlobalMouseMove (clickAt 300 200)
              (mouseMoves [clickAt 150 120] (handleNodeMouseDown 0 0%nat u)) in
  n_fx (heap (app u2) 0%nat) = Some (fst (getSVGCoordinates (clickAt 300 200) oneRoot))
  /\ forall r, heap (app (handleGlobalMouseUp u2)) r = heap oneRoot r.
Proof.
  cbv zeta.
  destruct (drag_gesture_pins_then_releases 0%nat [clickAt 150 120] (clickAt 300 200)
              (mkSession oneRoot None 0 0 0) eq_refl)
    as (_ & (Efx & _) & (_ & _ & _ & _ & _ & _ & _ & _ & Hsame) & _).
  split; [exact Efx|]. apply Hsame; reflexivity.
Defined.

Lemma draggedThrough_frame d ps :
  forall u,
    let u' := draggedThrough ps d u in
    isDragging (app u') = isDragging (app u) /\ draggedNode u' = draggedNode u
    /\ alphaTarget u' = alphaTarget u
    /\ nodes (app u') = nodes (app u) /\ links (app u') = links (app u)
    /\ (forall r, r <> d -> heap (app u') r = heap (app u) r)
    /\ heap (app u') d
       = with_fixed (heap (app u) d)
           (match ps with [] => n_fx (heap (app u) d) | _ => Some (fst (last ps (0, 0))) end)
           (match ps with [] => n_fy (heap (app u) d) | _ => Some (snd (last ps (0, 0))) end).
Proof.
  unfold draggedThrough. induction ps as [|p ps IH]; intros u; cbv zeta.
  - cbn [fold_left]. repeat split; try reflexivity. destruct (heap (app u) d); reflexivity.
  - cbn [fold_left].
    destruct (IH (dragged (fst p) (snd p) d u)) as (Hd & Hn & Ha & En & El & Ho & Ed).
    cbv zeta in *. unfold dragged in *. cbn [app set_app draggedNode alphaTarget] in *.
    rewrite set_fixed_heap in *.
    split; [exact Hd|]. split; [exact Hn|]. split; [exact Ha|].
    split; [exact En|]. split; [exact El|]. split.
    + intros r Hr. rewrite (Ho r Hr). apply store_other. exact Hr.
    + rewrite Ed, store_same. destruct ps as [|q ps]; [reflexivity|].
      change (last (p :: q :: ps) (0, 0)) with (last (q :: ps) (0, 0)). reflexivity.
Qed.

(** The same gesture through d3-drag's listeners: [dragstarted], [dragged]
    for each position of [ps], [dragended].  The node ends without a pin and
    dragging has ended, whatever the positions were; the node list, the
    links and every other node are untouched.  The simulation's target is
    reset to 0 only when no other gesture is active at the end; otherwise it
    stays where the start left it. *)
Theorem d3_drag_releases_pin (a0 a1 : Z) d (ps : list (Q * Q)) u :
  let u3 := dragended a1 d (draggedThrough ps d (dragstarted a0 d u)) in
  isDragging (app u3) = false /\ draggedNode u3 = None
  /\ heap (app u3) d = with_fixed (heap (app u) d) None None
  /\ (forall r, r <> d -> heap (app u3) r = heap (app u) r)
  /\ nodes (app u3) = nodes (app u) /\ links (app u3) = links (app u)
  /\ alphaTarget u3
     = (if (a1 =? 0)%Z then 0 else if (a0 =? 0)%Z then 3 # 10 else alphaTarget u)
  /\ (forall p, n_fx (heap (app (draggedThrough (ps ++ [p]) d (dragstarted a0 d u))) d)
                = Some (fst p)
                /\ n_fy (heap (app (draggedThrough (ps ++ [p]) d (dragstarted a0 d u))) d)
                   = Some (snd p)).
Proof.
  cbv zeta.
  assert (Hstart : forall r, r <> d -> heap (app (dragstarted a0 d u)) r = heap (app u) r).
  { intros r Hr. unfold dragstarted. destruct (a0 =? 0)%Z; cbn;
      rewrite store_other by congruence; reflexivity. }
  assert (Hd0 : exists fx fy,
            heap (app (dragstarted a0 d u)) d = with_fixed (heap (app u) d) fx fy).
  { unfold dragstarted. destruct (a0 =? 0)%Z; cbn; rewrite store_same; eexists _, _; reflexivity. }
  assert (Hn0 : nodes (app (dragstarted a0 d u)) = nodes (app u)
                /\ links (app (dragstarted a0 d u)) = links (app u)
                /\ alphaTarget (dragstarted a0 d u)
                   = (if (a0 =? 0)%Z then 3 # 10 else alphaTarget u)).
  { unfold dragstarted. destruct (a0 =? 0)%Z; cbn; auto. }
  destruct Hn0 as (En0 & El0 & Ea0). destruct Hd0 as (fx0 & fy0 & Ed0).
  destruct (draggedThrough_frame d ps (dragstarted a0 d u))
    as (_ & _ & Ha & En & El & Ho & Ed).
  cbv zeta in *.
  set (u2 := draggedThrough ps d (dragstarted a0 d u)) in *.
  assert (Hend : forall v,
            let v3 := dragended a1 d v in
            isDragging (app v3) = false /\ draggedNode v3 = None
            /\ heap (app v3) d = with_fixed (heap (app v) d) None None
            /\ (forall r, r <> d -> heap (app v3) r = heap (app v) r)
            /\ nodes (app v3) = nodes (app v) /\ links (app v3) = links (app v)
            /\ alphaTarget v3 = (if (a1 =? 0)%Z then 0 else alphaTarget v)).
  { intros v. cbv zeta. unfold dragended. destruct (a1 =? 0)%Z; cbn;
      rewrite store_same; repeat split; try reflexivity;
      intros r Hr; rewrite store_other by congruence; reflexivity. }
  destruct (Hend u2) as (H1 & H2 & H3 & H4 & H5 & H6 & H7). cbv zeta in *.
  split; [exact H1|]. split; [exact H2|].
  split. { rewrite H3, Ed, Ed0. reflexivity. }
  split. { intros r Hr. rewrite (H4 r Hr), (Ho r Hr). apply Hstart, Hr. }
  split; [congruence|]. split; [congruence|].
  split. { rewrite H7, Ha, Ea0. reflexivity. }
  intros p.
  destruct (draggedThrough_frame d (ps ++ [p]) (dragstarted a0 d u))
    as (_ & _ & _ & _ & _ & _ & Ed'). cbv zeta in Ed'.
  rewrite Ed'. rewrite last_last.
  destruct (ps ++ [p]) eqn:E; [destruct ps; discriminate|]. split; reflexivity.
Qed.

Lemma d3_drag_releases_pin_witness :
  let u := mkSession oneRoot None 0 0 0 in
  (forall r, r <> 0%nat ->
     heap (app (dragended 0 0%nat (draggedThrough [(5, 5)] 0%nat (dragstarted 0 0%nat u)))) r
     = heap oneRoot r)
  /\ n_fx (heap (app (draggedThrough ([(5, 5)] ++ [(7, 9)]) 0%nat (dragstarted 0 0%nat u)))
             0%nat) = Some 7.
Proof.
  cbv zeta.
  destruct (d3_drag_releases_pin 0 0 0%nat [(5, 5)] (mkSession oneRoot None 0 0 0))
    as (_ & _ & _ & Ho & _ & _ & _ & Hp).
  split; [exact Ho | exact (proj1 (Hp (7, 9)))].
Defined.

(** * Parent and child bookkeeping *)

Lemma attach_run p c s :
  let s' := exec (updateParentChildRelationships (Some p) (Some c) true) s in
  result (updateParentChildRelationships (Some p) (Some c) true) s = Normal tt
  /\ nodes s' = nodes s /\ links s' = links s
  /\ (forall r, n_id (heap s' r) = n_id (heap s r))
  /\ n_children (heap s' p) = n_children (heap s p) ++ [n_id (heap s c)]
  /\ n_parentId (heap s' c) = Some (n_id (heap s p))
  /\ (forall r, r <> p -> n_children (heap s' r) = n_children (heap s r))
  /\ (forall r, r <> c -> n_parentId (heap s' r) = n_parentId (heap s r))
  /\ (forall r, r <> p -> r <> c -> heap s' r = heap s r).
Proof.
  cbv zeta. unfold updateParentChildRelationships, exec, result, bind, modify.
  cbn [fst snd]. unfold set_parentId, set_children. cbn [heap set_heap nodes links].
  split; [reflexivity|]. split; [reflexivity|]. split; [reflexivity|].
  split.
  { intros r. unfold store.
    destruct (Nat.eqb_spec r c) as [->|]; cbn [n_id].
    - rewrite ?Nat.eqb_refl. destruct (Nat.eqb c p) eqn:E; [|reflexivity].
      apply Nat.eqb_eq in E. subst. reflexivity.
    - destruct (Nat.eqb_spec r p) as [->|]; reflexivity. }
  split.
  { unfold store. destruct (Nat.eqb_spec p c) as [->|]; cbn [n_children];
      rewrite ?Nat.eqb_refl; reflexivity. }
  split.
  { unfold store. rewrite !Nat.eqb_refl. cbn [n_parentId n_id].
    destruct (Nat.eqb p c); reflexivity. }
  split.
  { intros r Hr. unfold store.
    destruct (Nat.eqb_spec r c) as [->|]; cbn [n_children].
    - destruct (Nat.eqb_spec c p); [contradiction | reflexivity].
    - destruct (Nat.eqb_spec r p); [contradiction | reflexivity]. }
  split.
  { intros r Hr. unfold store.
    destruct (Nat.eqb_spec r c); [contradiction|].
    destruct (Nat.eqb_spec r p) as [->|]; reflexivity. }
  intros r Hp Hc. unfold store.
  destruct (Nat.eqb_spec r c); [contradiction|].
  destruct (Nat.eqb_spec r p); [contradiction | reflexivity].
Qed.

Lemma detach_run p c s :
  let s' := exec (updateParentChildRelationships (Some p) (Some c) false) s in
  result (updateParentChildRelationships (Some p) (Some c) false) s = Normal tt
  /\ nodes s' = nodes s /\ links s' = links s
  /\ (forall r, n_id (heap s' r) = n_id (heap s r))
  /\ n_children (heap s' p)
     = filter (fun i => negb (i =? n_id (heap s c))%Z) (n_children (heap s p))
  /\ n_parentId (heap s' c) = None
  /\ (forall r, r <> p -> n_children (heap s' r) = n_children (heap s r))
  /\ (forall r, r <> c -> n_parentId (heap s' r) = n_parentId (heap s r))
  /\ (forall r, r <> p -> r <> c -> heap s' r = heap s r).
Proof.
  cbv zeta. unfold updateParentChildRelationships, exec, result, bind, modify.
  cbn [fst snd]. unfold set_parentId, set_children. cbn [heap set_heap nodes links].
  split; [reflexivity|]. split; [reflexivity|]. split; [reflexivity|].
  split.
  { intros r. unfold store.
    destruct (Nat.eqb_spec r c) as [->|]; cbn [n_id].
    - rewrite ?Nat.eqb_refl. destruct (Nat.eqb c p) eqn:E; [|reflexivity].
      apply Nat.eqb_eq in E. subst. reflexivity.
    - destruct (Nat.eqb_spec r p) as [->|]; reflexivity. }
  split.
  { unfold store. destruct (Nat.eqb_spec p c) as [->|]; cbn [n_children];
      rewrite ?Nat.eqb_refl; reflexivity. }
  split.
  { unfold store. rewrite !Nat.eqb_refl. reflexivity. }
  split.
  { intros r Hr. unfold store.
    destruct (Nat.eqb_spec r c) as [->|]; cbn [n_children].
    - destruct (Nat.eqb_spec c p); [contradiction | reflexivity].
    - destruct (Nat.eqb_spec r p); [contradiction | reflexivity]. }
  split.
  { intros r Hr. unfold store.
    destruct (Nat.eqb_spec r c); [contradiction|].
    destruct (Nat.eqb_spec r p) as [->|]; reflexivity. }
  intros r Hp Hc. unfold store.
  destruct (Nat.eqb_spec r c); [contradiction|].
  destruct (Nat.eqb_spec r p); [contradiction | reflexivity].
Qed.

(** [updateParentChildRelationships] keeps the two sides of the parent/child
    relation in agreement, in a graph whose node ids are distinct: attaching
    a node that has no parent, and detaching a node from its own parent,
    both lead from a consistent state to a consistent state and change
    neither the node list nor the links.  Attaching a node that already has
    another parent is not covered: the function does not remove it from the
    old parent's children. *)
Theorem updateParentChildRelationships_keeps_consistency s p c :
  consistent s -> NoDup (node_ids s) -> In p (nodes s) -> In c (nodes s) ->
  (n_parentId (heap s c) = None ->
   let s' := exec (updateParentChildRelationships (Some p) (Some c) true) s in
   consistent s' /\ nodes s' = nodes s /\ links s' = links s
   /\ In (n_id (heap s' c)) (n_children (heap s' p))
   /\ n_parentId (heap s' c) = Some (n_id (heap s' p)))
  /\ (n_parentId (heap s c) = Some (n_id (heap s p)) ->
      let s' := exec (updateParentChildRelationships (Some p) (Some c) false) s in
      consistent s' /\ nodes s' = nodes s /\ links s' = links s
      /\ ~ In (n_id (heap s' c)) (n_children (heap s' p))
      /\ n_parentId (heap s' c) = None).
Proof.
  intros [C1 C2] Hnd Hp Hc.
  assert (Hinj : forall a b, In a (nodes s) -> In b (nodes s) ->
                   n_id (heap s a) = n_id (heap s b) -> a = b).
  { intros a b. exact (NoDup_map_eq (fun r => n_id (heap s r)) (nodes s) Hnd a b). }
  split.
  - intros Hnone. cbv zeta.
    destruct (attach_run p c s) as (_ & En & El & Eid & Ech & Epar & Och & Opar & _).
    cbv zeta in *.
    set (s' := exec (updateParentChildRelationships (Some p) (Some c) true) s) in *.
    split; [|split; [exact En|split; [exact El|split]]].
    + split; intros r r'; rewrite En; intros Hr Hr'; rewrite !Eid.
      * intros Hin. destruct (Nat.eq_dec r p) as [->|Hrp].
        -- rewrite Ech in Hin. apply in_app_or in Hin. destruct Hin as [Hin|[E|[]]].
           ++ pose proof (C1 p r' Hp Hr' Hin) as Hpar.
              rewrite Opar; [exact Hpar|]. intros ->. congruence.
           ++ assert (r' = c) by (apply Hinj; auto). subst r'. exact Epar.
        -- rewrite Och in Hin by exact Hrp.
           pose proof (C1 r r' Hr Hr' Hin) as Hpar.
           rewrite Opar; [exact Hpar|]. intros ->. congruence.
      * intros Hpar. destruct (Nat.eq_dec r' c) as [->|Hrc].
        -- rewrite Epar in Hpar. injection Hpar as E.
           assert (r = p) by (apply Hinj; auto). subst r.
           rewrite Ech. apply in_or_app. right. left. reflexivity.
        -- rewrite Opar in Hpar by exact Hrc.
           pose proof (C2 r r' Hr Hr' Hpar) as Hin.
           destruct (Nat.eq_dec r p) as [->|Hrp].
           ++ rewrite Ech. apply in_or_app. left. exact Hin.
           ++ rewrite Och by exact Hrp. exact Hin.
    + rewrite Eid, Ech. apply in_or_app. right. left. reflexivity.
    + rewrite Eid. exact Epar.
  - intros Hsome. cbv zeta.
    destruct (detach_run p c s) as (_ & En & El & Eid & Ech & Epar & Och & Opar & _).
    cbv zeta in *.
    set (s' := exec (updateParentChildRelationships (Some p) (Some c) false) s) in *.
    split; [|split; [exact En|split; [exact El|split]]].
    + split; intros r r'; rewrite En; intros Hr Hr'; rewrite !Eid.
      * intros Hin.
        assert (Hin0 : In (n_id (heap s r')) (n_children (heap s r))
                       /\ (r = p -> n_id (heap s r') <> n_id (heap s c))).
        { destruct (Nat.eq_dec r p) as [->|Hrp].
          - rewrite Ech in Hin. apply filter_In in Hin. destruct Hin as [Hin Hne].
            split; [exact Hin|]. intros _ E. rewrite E, Z.eqb_refl in Hne. discriminate.
          - rewrite Och in Hin by exact Hrp. split; [exact Hin | contradiction]. }
        destruct Hin0 as [Hin0 Hne].
        pose proof (C1 r r' Hr Hr' Hin0) as Hpar.
        destruct (Nat.eq_dec r' c) as [->|Hrc].
        -- exfalso. rewrite Hsome in Hpar. injection Hpar as E.
           assert (r = p) by (apply Hinj; auto). subst r. now apply Hne.
        -- rewrite Opar by exact Hrc. exact Hpar.
      * intros Hpar. destruct (Nat.eq_dec r' c) as [->|Hrc]; [congruence|].
        rewrite Opar in Hpar by exact Hrc.
        pose proof (C2 r r' Hr Hr' Hpar) as Hin.
        destruct (Nat.eq_dec r p) as [->|Hrp].
        -- rewrite Ech. apply filter_In. split; [exact Hin|].
           destruct (Z.eqb_spec (n_id (heap s r')) (n_id (heap s c))) as [E|]; [|reflexivity].
           exfalso. apply Hrc. apply Hinj; auto.
        -- rewrite Och by exact Hrp. exact Hin.
    + rewrite Eid, Ech. intros Hin. apply filter_In in Hin. destruct Hin as [_ Hne].
      rewrite Z.eqb_refl in Hne. discriminate.
    + exact Epar.
Qed.

Lemma updateParentChildRelationships_keeps_consistency_witness :
  consistent (exec (updateParentChildRelationships (Some 0%nat) (Some 1%nat) true) twoRoots)
  /\ n_children
       (heap (exec (updateParentChildRelationships (Some 0%nat) (Some 1%nat) true) twoRoots)
          0%nat) = [2%Z].
Proof.
  assert (Hc : consistent twoRoots).
  { split; intros r r' Hr Hr';
      destruct Hr as [<-|[<-|[]]]; destruct Hr' as [<-|[<-|[]]]; vm_compute;
      intuition congruence. }
  assert (Hn : NoDup (node_ids twoRoots)).
  { vm_compute. repeat constructor; cbn; intuition congruence. }
  assert (H0 : In 0%nat (nodes twoRoots)) by (vm_compute; auto).
  assert (H1 : In 1%nat (nodes twoRoots)) by (vm_compute; auto).
  destruct (updateParentChildRelationships_keeps_consistency twoRoots 0%nat 1%nat
              Hc Hn H0 H1) as [Hattach _].
  destruct (Hattach eq_refl) as (Hcons & _).
  split; [exact Hcons | reflexivity].
Defined.

(** * The tooltip *)

(** The preview line of the tooltip is never empty and never longer than 103
    code units: a note that is empty or blank gives the placeholder text, a
    note of at most 100 code units after trimming is shown whole, and a
    longer one is cut to its FIRST 100 code units followed by an ellipsis
    (where the context panel keeps the last 400).  A child node whose
    [parentId] is null or 0 is labelled as a child without a parent. *)
Theorem tooltipPreview_bounds d :
  tooltipPreview d <> []
  /\ (length (tooltipPreview d) <= 103)%nat
  /\ (trim (n_note d) = [] -> tooltipPreview d = emptyNoteText)
  /\ (trim (n_note d) <> [] -> (length (trim (n_note d)) <= 100)%nat ->
      tooltipPreview d = trim (n_note d))
  /\ ((100 < length (trim (n_note d)))%nat ->
      tooltipPreview d = firstn 100 (trim (n_note d)) ++ dots)
  /\ (n_type d = child ->
      (nodeTypeText d = ChildText
       <-> n_parentId d = None \/ n_parentId d = Some 0%Z)).
Proof.
  assert (E : tooltipPreview d
              = if str_truthy (trim (n_note d))
                then firstn 100 (trim (n_note d))
                     ++ (if (100 <? length (trim (n_note d)))%nat then dots else [])
                else emptyNoteText).
  { unfold tooltipPreview. destruct (n_note d); reflexivity. }
  rewrite E. clear E. set (t := trim (n_note d)).
  split; [|split; [|split; [|split; [|split]]]].
  - destruct t as [|c t]; [discriminate|]. cbn [str_truthy].
    change (firstn 100 (c :: t)) with (c :: firstn 99 t). discriminate.
  - destruct t as [|c t]; [cbn; lia|]. cbv beta iota delta [str_truthy].
    rewrite length_app. pose proof (firstn_le_length 100 (c :: t)) as H.
    destruct (100 <? length (c :: t))%nat; cbn [length dots]; lia.
  - intros ->. reflexivity.
  - intros Hne Hlen. destruct t as [|c t]; [congruence|]. cbv beta iota delta [str_truthy].
    destruct (Nat.ltb_spec 100 (length (c :: t))); [lia|].
    rewrite app_nil_r. apply firstn_all2. exact Hlen.
  - intros Hlen. destruct t as [|c t]; [cbn in Hlen; lia|]. cbv beta iota delta [str_truthy].
    destruct (Nat.ltb_spec 100 (length (c :: t))); [reflexivity | lia].
  - intros Ht. unfold nodeTypeText, truthy_id. rewrite Ht.
    destruct (n_parentId d) as [i|].
    + destruct (Z.eqb_spec i 0) as [->|Hi].
      * split; auto.
      * split; [discriminate|]. intros [H|H]; [discriminate | congruence].
    + split; auto.
Qed.

Lemma tooltipPreview_bounds_witness :
  tooltipPreview (heap oneRoot 0%nat) = rootNoteTemplate
  /\ (nodeTypeText (heap childSpawned 1%nat) = ChildText -> False).
Proof.
  destruct (tooltipPreview_bounds (heap oneRoot 0%nat)) as (_ & _ & _ & Hshort & _).
  destruct (tooltipPreview_bounds (heap childSpawned 1%nat)) as (_ & _ & _ & _ & _ & Hchild).
  split.
  - rewrite Hshort; [reflexivity | vm_compute; discriminate | vm_compute; lia].
  - intros H. apply (Hchild eq_refl) in H. destruct H as [H|H]; vm_compute in H; discriminate.
Defined.
